(** * DrQ training workspace (train.py) and its replay buffer

    A shallow embedding of [make_env], [Workspace.__init__],
    [Workspace.evaluate], [Workspace.run] and [main] of train.py, together
    with a model of the replay buffer the workspace drives.

    The external collaborators (robosuite / gym environment, agent, logger,
    video recorder, clock, utils) are kept abstract: they are operations on
    an opaque [World] and may raise.  The Python control flow is written in
    a small monad that threads the mutable state, records the calls made
    (a trace of [Event]s) and propagates exceptions. *)

From Stdlib Require Import ZArith List Ascii String Bool Lia QArith.
From stdpp Require Import base list.

Open Scope Z_scope.

(* ------------------------------------------------------------------ *)
(** ** Exceptions and fallible results *)

Inductive Exn :=
| InvalidConfigError
| ShapeMismatchError
| EmptyBufferError
| AssertionError
| ZeroDivisionError
| UnboundLocalError
| ExternalError (what : string).

Inductive result (A : Type) :=
| Ok (a : A)
| Err (e : Exn).
Arguments Ok {A} a.
Arguments Err {A} e.

(** A tensor shape, e.g. [(9, 84, 84)]. *)
Definition Shape := list Z.

(* ------------------------------------------------------------------ *)
(** ** The replay buffer (replay_buffer.py is not part of the sources) *)

Section SpecBuffer.
Context {Obs Action Reward Device : Type}.
Variable shape_of_obs : Obs -> Shape.
Variable shape_of_action : Action -> Shape.

(** One environment step, fields in the order of [insert]. *)
Record Transition := mkTransition {
  observation : Obs;
  action : Action;
  reward : Reward;
  next_observation : Obs;
  done : Z;
  done_no_max : Z
}.

(** Modelled from the spec: the Buffer of section 3 (replay_buffer.py is
    missing).  [storage] is the row-as-struct form of the six parallel
    arrays; a row that was never written is [None]. *)
Record Buffer := mkBuffer {
  buf_obs_shape : Shape;
  buf_action_shape : Shape;
  capacity : Z;
  pad : Z;
  buf_device : Device;
  rng : Z;
  storage : list (option Transition);
  size : Z;
  write_index : Z
}.

(** Modelled from the spec: construction (section 6), missing with
    replay_buffer.py.  [(observation_shape, action_shape, capacity, pad,
    device, rng_seed) -> Buffer], failing with [InvalidConfigError] if
    [capacity <= 0] or [pad < 0] or a shape has a non-positive
    dimension. *)
Definition Buffer_construct (observation_shape action_shape : Shape)
    (cap pad_ : Z) (dev : Device) (rng_seed : Z) : result Buffer :=
  if (cap <=? 0) || (pad_ <? 0)
     || existsb (fun d => d <=? 0) (observation_shape ++ action_shape)
  then Err InvalidConfigError
  else Ok {| buf_obs_shape := observation_shape;
             buf_action_shape := action_shape;
             capacity := cap;
             pad := pad_;
             buf_device := dev;
             rng := rng_seed;
             storage := replicate (Z.to_nat cap) None;
             size := 0;
             write_index := 0 |}.

(** Modelled from the spec: [insert] (section 4.1), missing with
    replay_buffer.py.  Shape check, then the row at [write_index] is
    written, then [write_index = (write_index + 1) mod capacity], then
    [size = min(size + 1, capacity)].  On [ShapeMismatchError] the buffer
    is left unchanged. *)
Definition Buffer_insert (b : Buffer) (obs : Obs) (act : Action)
    (rew : Reward) (next_obs : Obs) (d d_no_max : Z) : result Buffer :=
  if bool_decide (shape_of_obs obs = buf_obs_shape b)
     && bool_decide (shape_of_obs next_obs = buf_obs_shape b)
     && bool_decide (shape_of_action act = buf_action_shape b)
  then Ok {| buf_obs_shape := buf_obs_shape b;
             buf_action_shape := buf_action_shape b;
             capacity := capacity b;
             pad := pad b;
             buf_device := buf_device b;
             rng := rng b;
             storage := <[Z.to_nat (write_index b) :=
                            Some (mkTransition obs act rew next_obs d d_no_max)]>
                          (storage b);
             size := Z.min (size b + 1) (capacity b);
             write_index := (write_index b + 1) mod capacity b |}
  else Err ShapeMismatchError.

Definition insert_transition (b : Buffer) (t : Transition) : result Buffer :=
  Buffer_insert b (observation t) (action t) (reward t)
                (next_observation t) (done t) (done_no_max t).

(** A transition the shape check of [insert] lets through. *)
Definition well_shaped (b : Buffer) (t : Transition) : Prop :=
  shape_of_obs (observation t) = buf_obs_shape b /\
  shape_of_obs (next_observation t) = buf_obs_shape b /\
  shape_of_action (action t) = buf_action_shape b.

(** A sequence of insertion attempts.  A rejected attempt leaves the
    buffer as it was; the second component counts the insertions that
    were performed. *)
Fixpoint insert_all (b : Buffer) (ts : list Transition) : Buffer * Z :=
  match ts with
  | [] => (b, 0)
  | t :: ts' =>
      match insert_transition b t with
      | Ok b' => let '(b'', n) := insert_all b' ts' in (b'', n + 1)
      | Err _ => insert_all b ts'
      end
  end.
End SpecBuffer.

Arguments Transition : clear implicits.
Arguments Buffer : clear implicits.

(* ------------------------------------------------------------------ *)
(** ** Configuration and handles *)

(** The hydra configuration, fields read by train.py.  [cfg.env] and
    [cfg.device] are [cfg_env] and [cfg_device]; [cfg.agent.name] is
    [agent_name]. *)
Record Cfg := mkCfg {
  cfg_env : string;
  seed : Z;
  image_size : Z;
  frame_stack : Z;
  action_repeat : Z;
  cfg_device : string;
  replay_buffer_capacity : Z;
  image_pad : Z;
  num_eval_episodes : Z;
  num_train_steps : Z;
  num_seed_steps : Z;
  num_train_iters : Z;
  eval_frequency : Z;
  save_video : bool;
  log_save_tb : bool;
  log_frequency_step : Z;
  agent_name : string
}.

(** The attributes of the gym environment object that train.py reads:
    [observation_space.shape], [action_space.shape],
    [action_space.low.min()], [action_space.high.max()] and
    [_max_episode_steps].  The simulator state behind it lives in the
    [World]. *)
Record Env := mkEnv {
  observation_space_shape : Shape;
  action_space_shape : Shape;
  action_space_low_min : Q;
  action_space_high_max : Q;
  _max_episode_steps : Z
}.

(** [env._max_episode_steps = v] *)
Definition set_max_episode_steps (e : Env) (v : Z) : Env :=
  {| observation_space_shape := observation_space_shape e;
     action_space_shape := action_space_shape e;
     action_space_low_min := action_space_low_min e;
     action_space_high_max := action_space_high_max e;
     _max_episode_steps := v |}.

(** [cfg.agent.params], as filled in by [Workspace.__init__]. *)
Record AgentParams := mkAgentParams {
  params_obs_shape : Shape;
  params_action_shape : Shape;
  params_action_range : Q * Q
}.

(** The carrier types of the external collaborators. *)
Class DataTypes := {
  World : Type;
  Obs : Type;
  Action : Type;
  Reward : Type;
  Time : Type;
  Device : Type;
  RB : Type
}.

(** Which loop talks to the environment: the rollout loop of [run] or the
    episode loop of [evaluate]. *)
Inductive Site := Train | Eval.

(** A positional argument of the [ReplayBuffer(...)] constructor call. *)
Inductive CtorArg {T : DataTypes} :=
| ArgShape (s : Shape)
| ArgInt (z : Z)
| ArgDevice (d : Device).

Section Events.
Context {T : DataTypes}.

Inductive LogValue :=
| VInt (z : Z)
| VReward (r : Reward)
| VDuration (t : Time).

(** Calls made for their effect only. *)
Inductive Call :=
| Print (work_dir : string)
| LoggerNew (work_dir : string) (save_tb : bool) (log_frequency : Z)
            (agent : string) (action_repeat_ : Z)
| SetSeedEverywhere (seed_ : Z)
| EnvSeed (seed_ : Z)
| HydraInstantiate (name : string) (params : AgentParams)
| VideoRecorderNew (dir : option string)
| VideoInit (enabled : bool)
| VideoRecord (obs : Obs)
| VideoSave (step_ : Z)                (* f'{self.step}.mp4' *)
| LoggerLog (key : string) (value : LogValue) (step_ : Z)
| LoggerDump (step_ : Z) (save : option bool).

(** The calls of one execution, in program order.  [EvEnvStep] also
    records [self.step] and the local [episode_step] at the call. *)
Inductive Event :=
| EvCall (c : Call)
| EvNewReplayBuffer (args : list CtorArg)
| EvReset (site : Site) (obs : Obs)
| EvSampleAction (a : Action)
| EvAct (obs : Obs) (sample : bool) (a : Action)
| EvUpdate (step_ : Z)
| EvEnvStep (site : Site) (step_ episode_step_ : Z) (a : Action)
            (next_obs : Obs) (reward_ : Reward) (done_ : bool)
| EvAdd (obs : Obs) (a : Action) (reward_ : Reward) (next_obs : Obs)
        (done_ done_no_max_ : Z).
End Events.

(** The external collaborators.  Every one of them acts on the [World] and
    may raise.  [agent_update] is handed the buffer to sample from and
    hands none back: sampling only reads the storage, insertion being the
    one operation that writes it. *)
Class Externals {T : DataTypes} := {
  (* os, torch, clock *)
  os_getcwd : World -> result string * World;
  torch_device : string -> World -> result Device * World;
  time_time : World -> result Time * World;
  time_sub : Time -> Time -> Time;
  (* logger, video recorder, seeding, agent construction *)
  ext_effect : Call -> World -> result unit * World;
  (* robosuite / gym *)
  GymWrapper_suite_make_Lift : Z -> World -> result Env * World;
  FrameStack : Env -> Z -> World -> result Env * World;
  env_reset : World -> result Obs * World;
  env_step : Action -> World -> result (Obs * Reward * bool) * World;
  action_space_sample : World -> result Action * World;
  (* agent; [agent_act] is the call inside [with utils.eval_mode(agent)] *)
  agent_act : Obs -> bool -> World -> result Action * World;
  agent_update : RB -> Z -> World -> result unit * World;
  (* reward arithmetic *)
  reward_zero : Reward;
  reward_add : Reward -> Reward -> Reward;
  reward_div : Reward -> Z -> Reward;
  (* replay_buffer.ReplayBuffer, as train.py uses it *)
  ReplayBuffer : Shape -> Shape -> Z -> Z -> Device -> result RB;
  ReplayBuffer_add : RB -> Obs -> Action -> Reward -> Obs -> Z -> Z -> result RB;
  ReplayBuffer_len : RB -> Z
}.

(* ------------------------------------------------------------------ *)
(** ** The monad: state, trace of calls, exceptions, fuel *)

Inductive outcome (A : Type) :=
| Returned (a : A)
| Raised (e : Exn)
| OutOfFuel.
Arguments Returned {A} a.
Arguments Raised {A} e.
Arguments OutOfFuel {A}.

Section Monad.
Context {T : DataTypes}.

Definition M (S A : Type) : Type := S -> outcome A * S * list Event.

Definition ret {S A} (a : A) : M S A := fun s => (Returned a, s, []).

Definition bind {S A B} (m : M S A) (f : A -> M S B) : M S B := fun s =>
  match m s with
  | (Returned a, s1, t1) =>
      match f a s1 with (o, s2, t2) => (o, s2, t1 ++ t2) end
  | (Raised e, s1, t1) => (Raised e, s1, t1)
  | (OutOfFuel, s1, t1) => (OutOfFuel, s1, t1)
  end.

Definition raise {S A} (e : Exn) : M S A := fun s => (Raised e, s, []).
Definition out_of_fuel {S A} : M S A := fun s => (OutOfFuel, s, []).
Definition emit {S} (e : Event) : M S unit := fun s => (Returned tt, s, [e]).
Definition gets {S A} (f : S -> A) : M S A := fun s => (Returned (f s), s, []).
Definition modify {S} (f : S -> S) : M S unit := fun s => (Returned tt, f s, []).

Definition of_result {S A} (r : result A) : M S A :=
  match r with Ok a => ret a | Err e => raise e end.

(** A call of an external collaborator. *)
Definition call {A} (f : World -> result A * World) : M World A := fun w =>
  match f w with
  | (Ok a, w') => (Returned a, w', [])
  | (Err e, w') => (Raised e, w', [])
  end.

(** [assert c] *)
Definition py_assert {S} (c : bool) : M S unit :=
  if c then ret tt else raise AssertionError.
End Monad.

Declare Scope monad_scope.
Delimit Scope monad_scope with monad.
Notation "x <- c1 ;; c2" := (bind c1 (fun x => c2))
  (at level 100, c1 at next level, right associativity) : monad_scope.
Notation "c1 ;; c2" := (bind c1 (fun _ => c2))
  (at level 100, right associativity) : monad_scope.
Open Scope monad_scope.

(* ------------------------------------------------------------------ *)
(** ** train.py *)

Section Train.
Context {T : DataTypes} {X : Externals}.

(** [float(done)]: the floats [0.0] and [1.0], written as the integers
    they equal (Python's [0 == 0.0]). *)
Definition float_of_bool (b : bool) : Z := if b then 1 else 0.

(** Truth value of a number, as in [if done:]. *)
Definition truthy (z : Z) : bool := negb (z =? 0).

(** [range(n)] *)
Definition range (n : Z) : list Z := seqZ 0 n.

(** [a % b] *)
Definition py_mod {S} (a b : Z) : M S Z :=
  if b =? 0 then raise ZeroDivisionError else ret (a mod b).

(** [average_episode_reward /= n]; the numerator is the int [0] when
    [n == 0], since the episode loop did not run. *)
Definition py_div {S} (r : Reward) (n : Z) : M S Reward :=
  if n =? 0 then raise ZeroDivisionError else ret (reward_div r n).

(** An effect-only call, recorded in the trace. *)
Definition effect (c : Call) : M World unit :=
  emit (EvCall c) ;; call (ext_effect c).

(** [make_env(cfg)].  The [domain_name] / [task_name] / [camera_id]
    locals feed only the commented-out dmc2gym call and are left out. *)
Definition make_env (cfg : Cfg) : M World Env :=
  env <- call (GymWrapper_suite_make_Lift (image_size cfg)) ;;
  let env := set_max_episode_steps env 250 in
  env <- call (FrameStack env (frame_stack cfg)) ;;
  effect (EnvSeed (seed cfg)) ;;
  py_assert (Qle_bool (-1 # 1) (action_space_low_min env)) ;;
  py_assert (Qle_bool (action_space_high_max env) (1 # 1)) ;;
  ret env.

(** The attributes of a [Workspace] object; logger, agent and video
    recorder are part of the [World]. *)
Record Workspace := mkWorkspace {
  work_dir : string;
  cfg : Cfg;
  device : Device;
  env : Env;
  replay_buffer : RB;
  step : Z
}.

(** The arguments of the [ReplayBuffer(...)] call of [__init__], in
    order. *)
Definition ReplayBuffer_args (c : Cfg) (e : Env) (d : Device) : list CtorArg :=
  [ArgShape (observation_space_shape e);
   ArgShape (action_space_shape e);
   ArgInt (replay_buffer_capacity c);
   ArgInt (image_pad c);
   ArgDevice d].

(** [Workspace.__init__(self, cfg)] *)
Definition Workspace_init (c : Cfg) : M World Workspace :=
  wd <- call os_getcwd ;;
  effect (Print wd) ;;
  effect (LoggerNew wd (log_save_tb c) (log_frequency_step c)
                    (agent_name c) (action_repeat c)) ;;
  effect (SetSeedEverywhere (seed c)) ;;
  dev <- call (torch_device (cfg_device c)) ;;
  e <- make_env c ;;
  let params :=
    {| params_obs_shape := observation_space_shape e;
       params_action_shape := action_space_shape e;
       params_action_range :=
         (action_space_low_min e, action_space_high_max e) |} in
  effect (HydraInstantiate (agent_name c) params) ;;
  emit (EvNewReplayBuffer (ReplayBuffer_args c e dev)) ;;
  rb <- of_result (ReplayBuffer (observation_space_shape e)
                                (action_space_shape e)
                                (replay_buffer_capacity c)
                                (image_pad c) dev) ;;
  effect (VideoRecorderNew (if save_video c then Some wd else None)) ;;
  ret {| work_dir := wd; cfg := c; device := dev; env := e;
         replay_buffer := rb; step := 0 |}.

(** The state [run] and [evaluate] work on: the workspace object and the
    world of the collaborators. *)
Record St := mkSt { ws : Workspace; world : World }.

Definition in_world {A} (m : M World A) : M St A := fun st =>
  match m (world st) with
  | (o, w', t) => (o, {| ws := ws st; world := w' |}, t)
  end.

Definition self {A} (f : Workspace -> A) : M St A := gets (fun st => f (ws st)).

(** [self.step += 1] *)
Definition incr_step : M St unit :=
  modify (fun st =>
    {| ws := {| work_dir := work_dir (ws st); cfg := cfg (ws st);
                device := device (ws st); env := env (ws st);
                replay_buffer := replay_buffer (ws st);
                step := step (ws st) + 1 |};
       world := world st |}).

(** [self.replay_buffer.add(...)]: the buffer object is updated in
    place; when [add] raises it is left as it was. *)
Definition replay_buffer_add (o : Obs) (a : Action) (r : Reward) (o' : Obs)
    (d dnm : Z) : M St unit :=
  emit (EvAdd o a r o' d dnm) ;;
  rb <- self replay_buffer ;;
  rb' <- of_result (ReplayBuffer_add rb o a r o' d dnm) ;;
  modify (fun st =>
    {| ws := {| work_dir := work_dir (ws st); cfg := cfg (ws st);
                device := device (ws st); env := env (ws st);
                replay_buffer := rb';
                step := step (ws st) |};
       world := world st |}).

Definition logger_log (key : string) (v : LogValue) (s : Z) : M St unit :=
  in_world (effect (LoggerLog key v s)).

(** [self.env.reset()] *)
Definition do_reset (site : Site) : M St Obs :=
  in_world (o <- call env_reset ;; emit (EvReset site o) ;; ret o).

(** [self.env.step(action)]; [info] is dropped. *)
Definition do_step (site : Site) (episode_step : Z) (a : Action)
    : M St (Obs * Reward * bool) :=
  s <- self step ;;
  in_world (r <- call (env_step a) ;;
            emit (EvEnvStep site s episode_step a r.1.1 r.1.2 r.2) ;;
            ret r).

(** [with utils.eval_mode(self.agent): action = self.agent.act(obs, sample)] *)
Definition do_act (o : Obs) (sample : bool) : M St Action :=
  in_world (a <- call (agent_act o sample) ;; emit (EvAct o sample a) ;; ret a).

(** [self.agent.update(self.replay_buffer, self.logger, self.step)] *)
Definition do_update : M St unit :=
  rb <- self replay_buffer ;;
  s <- self step ;;
  emit (EvUpdate s) ;;
  in_world (call (agent_update rb s)).

(** The [while not done:] loop of [evaluate]; returns [episode_reward]. *)
Fixpoint evaluate_episode (fuel : nat) (obs : Obs) (done : bool)
    (episode_reward : Reward) (episode_step : Z) : M St Reward :=
  if done then ret episode_reward
  else
    match fuel with
    | O => out_of_fuel
    | S fuel' =>
        action <- do_act obs false ;;
        r <- do_step Eval episode_step action ;;
        let '(obs, reward, done) := r in
        in_world (effect (VideoRecord obs)) ;;
        let episode_reward := reward_add episode_reward reward in
        let episode_step := episode_step + 1 in
        evaluate_episode fuel' obs done episode_reward episode_step
    end.

(** The [for episode in range(...)] loop of [evaluate]; returns
    [average_episode_reward] before the division. *)
Fixpoint evaluate_episodes (fuel : nat) (episodes : list Z)
    (average_episode_reward : Reward) : M St Reward :=
  match episodes with
  | [] => ret average_episode_reward
  | episode :: rest =>
      obs <- do_reset Eval ;;
      in_world (effect (VideoInit (episode =? 0))) ;;
      episode_reward <- evaluate_episode fuel obs false reward_zero 0 ;;
      let average_episode_reward :=
        reward_add average_episode_reward episode_reward in
      s <- self step ;;
      in_world (effect (VideoSave s)) ;;
      evaluate_episodes fuel rest average_episode_reward
  end.

(** [Workspace.evaluate(self)] *)
Definition evaluate (fuel : nat) : M St unit :=
  c <- self cfg ;;
  average_episode_reward <-
    evaluate_episodes fuel (range (num_eval_episodes c)) reward_zero ;;
  average_episode_reward <-
    py_div average_episode_reward (num_eval_episodes c) ;;
  s <- self step ;;
  logger_log "eval/episode_reward" (VReward average_episode_reward) s ;;
  s <- self step ;;
  in_world (effect (LoggerDump s None)).

(** The locals of [run]. *)
Record Locals := mkLocals {
  l_episode : Z;
  l_episode_reward : Reward;
  l_episode_step : Z;
  l_done : Z;
  l_obs : option Obs;
  l_start_time : Time
}.

(** Reading the local [obs]; it is unbound before the first reset. *)
Definition read_obs (l : Locals) : M St Obs :=
  match l_obs l with
  | Some o => ret o
  | None => raise UnboundLocalError
  end.

(** The [if done:] block of [run]. *)
Definition begin_episode (fuel : nat) (l : Locals) : M St Locals :=
  c <- self cfg ;;
  s <- self step ;;
  start_time <-
    (if 0 <? s then
       now <- in_world (call time_time) ;;
       s <- self step ;;
       logger_log "train/duration" (VDuration (time_sub now (l_start_time l))) s ;;
       start_time <- in_world (call time_time) ;;
       s <- self step ;;
       in_world (effect (LoggerDump s (Some (num_seed_steps c <? s)))) ;;
       ret start_time
     else ret (l_start_time l)) ;;
  (* evaluate agent periodically *)
  s <- self step ;;
  m <- py_mod s (eval_frequency c) ;;
  (if m =? 0 then
     s <- self step ;;
     logger_log "eval/episode" (VInt (l_episode l)) s ;;
     evaluate fuel
   else ret tt) ;;
  s <- self step ;;
  logger_log "train/episode_reward" (VReward (l_episode_reward l)) s ;;
  obs <- do_reset Train ;;
  let episode := l_episode l + 1 in
  s <- self step ;;
  logger_log "train/episode" (VInt episode) s ;;
  ret {| l_episode := episode;
         l_episode_reward := reward_zero;
         l_episode_step := 0;
         l_done := 0;
         l_obs := Some obs;
         l_start_time := start_time |}.

(** [for _ in range(...): self.agent.update(...)] *)
Fixpoint update_loop (iters : list Z) : M St unit :=
  match iters with
  | [] => ret tt
  | _ :: rest => do_update ;; update_loop rest
  end.

(** One pass through the body of the [while] loop of [run]. *)
Definition run_iteration (fuel : nat) (l : Locals) : M St Locals :=
  l <- (if truthy (l_done l) then begin_episode fuel l else ret l) ;;
  c <- self cfg ;;
  (* sample action for data collection *)
  s <- self step ;;
  action <-
    (if s <? num_seed_steps c then
       in_world (a <- call action_space_sample ;;
                 emit (EvSampleAction a) ;; ret a)
     else
       obs <- read_obs l ;;
       do_act obs true) ;;
  (* run training update *)
  s <- self step ;;
  (if num_seed_steps c <=? s then
     update_loop (range (num_train_iters c))
   else ret tt) ;;
  r <- do_step Train (l_episode_step l) action ;;
  let '(next_obs, reward, d) := r in
  (* allow infinite bootstrap *)
  let done := float_of_bool d in
  e <- self env ;;
  let done_no_max :=
    if l_episode_step l + 1 =? _max_episode_steps e then 0 else done in
  let episode_reward := reward_add (l_episode_reward l) reward in
  obs <- read_obs l ;;
  replay_buffer_add obs action reward next_obs done done_no_max ;;
  incr_step ;;
  ret {| l_episode := l_episode l;
         l_episode_reward := episode_reward;
         l_episode_step := l_episode_step l + 1;
         l_done := done;
         l_obs := Some next_obs;
         l_start_time := l_start_time l |}.

(** [while self.step < self.cfg.num_train_steps: ...] *)
Fixpoint run_loop (fuel : nat) (l : Locals) : M St unit :=
  c <- self cfg ;;
  s <- self step ;;
  if s <? num_train_steps c then
    match fuel with
    | O => out_of_fuel
    | S fuel' => l' <- run_iteration fuel' l ;; run_loop fuel' l'
    end
  else ret tt.

(** [Workspace.run(self)]: [episode, episode_reward, episode_step, done
    = 0, 0, 1, True]. *)
Definition run (fuel : nat) : M St unit :=
  start_time <- in_world (call time_time) ;;
  run_loop fuel {| l_episode := 0;
                   l_episode_reward := reward_zero;
                   l_episode_step := 1;
                   l_done := 1;
                   l_obs := None;
                   l_start_time := start_time |}.

(** [main(cfg)]: [workspace = W(cfg); workspace.run()].  Returns the
    outcome, the workspace object if it was constructed, the final world
    and the trace of the whole execution. *)
Definition main (fuel : nat) (c : Cfg) (w : World)
    : outcome unit * option Workspace * World * list Event :=
  match Workspace_init c w with
  | (Returned workspace, w1, t1) =>
      match run fuel {| ws := workspace; world := w1 |} with
      | (o, st, t2) => (o, Some (ws st), world st, t1 ++ t2)
      end
  | (Raised e, w1, t1) => (Raised e, None, w1, t1)
  | (OutOfFuel, w1, t1) => (OutOfFuel, None, w1, t1)
  end.
End Train.

(* ------------------------------------------------------------------ *)
(** ** Trace observations used in the statements *)

Section TraceFunctions.
Context {T : DataTypes} {X : Externals}.

Definition is_add (e : Event) : bool :=
  match e with EvAdd _ _ _ _ _ _ => true | _ => false end.

Definition is_update (e : Event) : bool :=
  match e with EvUpdate _ => true | _ => false end.

Definition is_ctor (e : Event) : bool :=
  match e with EvNewReplayBuffer _ => true | _ => false end.

Definition is_rollout_step (e : Event) : bool :=
  match e with EvEnvStep Train _ _ _ _ _ _ => true | _ => false end.

Definition count (p : Event -> bool) (t : list Event) : Z :=
  Z.of_nat (length (List.filter p t)).

(** Number of [replay_buffer.add] calls in a trace. *)
Definition count_adds : list Event -> Z := count is_add.

(** Number of [ReplayBuffer(...)] constructor calls in a trace. *)
Definition count_ctors : list Event -> Z := count is_ctor.

(** Number of [env.step] calls of the rollout loop in a trace. *)
Definition count_rollout_steps : list Event -> Z := count is_rollout_step.

(** The calls [Workspace.__init__] makes: effect-only calls and the
    buffer construction. *)
Definition init_event (e : Event) : Prop :=
  match e with
  | EvCall _ | EvNewReplayBuffer _ => True
  | _ => False
  end.

(** The effect of one recorded call on a buffer object: only [add]
    touches it, and a raising [add] leaves it as it was. *)
Definition apply_event (rb : RB) (e : Event) : RB :=
  match e with
  | EvAdd o a r o' d dnm =>
      match ReplayBuffer_add rb o a r o' d dnm with
      | Ok rb' => rb'
      | Err _ => rb
      end
  | _ => rb
  end.

(** Replaying the [add] calls of a trace on a buffer. *)
Definition apply_adds (rb : RB) (t : list Event) : RB :=
  fold_left apply_event t rb.

(** The observation the rollout loop holds after a trace: the one of its
    last reset or of its last environment step. *)
Definition current_obs_from (start : option Obs) (t : list Event) : option Obs :=
  fold_left (fun cur e =>
               match e with
               | EvReset Train o => Some o
               | EvEnvStep Train _ _ _ o' _ _ => Some o'
               | _ => cur
               end) t start.
Definition current_obs : list Event -> option Obs := current_obs_from None.

(** The number of rollout steps taken since the rollout loop last reset
    the environment. *)
Definition episode_steps_from (start : Z) (t : list Event) : Z :=
  fold_left (fun n e =>
               match e with
               | EvReset Train _ => 0
               | EvEnvStep Train _ _ _ _ _ _ => n + 1
               | _ => n
               end) t start.
Definition episode_steps : list Event -> Z := episode_steps_from 1.

(** Modelled from the spec: the construction tuple of section 6,
    [(observation_shape, action_shape, capacity, pad, device, rng_seed)],
    for the workspace's shapes, capacity, pad, device and seed. *)
Definition spec_construction_tuple (c : Cfg) (e : Env) (d : Device)
    : list CtorArg :=
  [ArgShape (observation_space_shape e);
   ArgShape (action_space_shape e);
   ArgInt (replay_buffer_capacity c);
   ArgInt (image_pad c);
   ArgDevice d;
   ArgInt (seed c)].
End TraceFunctions.

(* ------------------------------------------------------------------ *)
(** ** A small concrete world

    A deterministic stand-in for the collaborators, used to run the model:
    the world is a tick counter, the environment ends an episode at every
    [period]-th step, and the replay buffer is the buffer above (with a
    fixed seed, since train.py passes none). *)

#[local] Instance ToyTypes : DataTypes :=
  {| World := Z; Obs := Z; Action := Z; Reward := Z; Time := Z;
     Device := string; RB := Buffer Z Z Z string |}.

Definition toy_shape_of_obs (o : Z) : Shape := [3; 2; 2].
Definition toy_shape_of_action (a : Z) : Shape := [1].

Definition toy_env : Env :=
  {| observation_space_shape := [3; 2; 2];
     action_space_shape := [1];
     action_space_low_min := (-1 # 1);
     action_space_high_max := (1 # 1);
     _max_episode_steps := 0 |}.

Definition ToyExternals (period : Z) : @Externals ToyTypes :=
  {| os_getcwd := fun w => (Ok "/exp"%string, w);
     torch_device := fun name w => (Ok name, w);
     time_time := fun w => (Ok w, w + 1);
     time_sub := Z.sub;
     ext_effect := fun _ w => (Ok tt, w);
     GymWrapper_suite_make_Lift := fun _ w => (Ok toy_env, w);
     FrameStack := fun e k w =>
       (Ok {| observation_space_shape := observation_space_shape e;
              action_space_shape := action_space_shape e;
              action_space_low_min := action_space_low_min e;
              action_space_high_max := action_space_high_max e;
              _max_episode_steps := _max_episode_steps e |}, w);
     env_reset := fun w => (Ok w, w + 1);
     env_step := fun a w => (Ok (w, 1, (w mod period =? 0)), w + 1);
     action_space_sample := fun w => (Ok 0, w);
     agent_act := fun o sample w => (Ok o, w);
     agent_update := fun rb s w => (Ok tt, w);
     reward_zero := 0;
     reward_add := Z.add;
     reward_div := Z.div;
     ReplayBuffer := fun os acs cap p d =>
       Buffer_construct (Obs:=Z) (Action:=Z) (Reward:=Z) os acs cap p d 0;
     ReplayBuffer_add := Buffer_insert toy_shape_of_obs toy_shape_of_action;
     ReplayBuffer_len := size |}.

(** A freshly constructed buffer of capacity 4 for the toy shapes. *)
Definition toy_buffer : Buffer Z Z Z string :=
  {| buf_obs_shape := [3; 2; 2]; buf_action_shape := [1]; capacity := 4;
     pad := 1; buf_device := "cpu"%string; rng := 0;
     storage := replicate 4 None; size := 0; write_index := 0 |}.

Definition toy_cfg (train_steps seed_steps : Z) : Cfg :=
  {| cfg_env := "Lift"; seed := 1; image_size := 2; frame_stack := 3;
     action_repeat := 1; cfg_device := "cpu";
     replay_buffer_capacity := 4; image_pad := 1;
     num_eval_episodes := 1; num_train_steps := train_steps;
     num_seed_steps := seed_steps; num_train_iters := 1;
     eval_frequency := 5; save_video := false; log_save_tb := false;
     log_frequency_step := 1; agent_name := "drq" |}.

(** A workspace whose environment allows [max_steps] steps per episode,
    in the world at tick 0. *)
Definition toy_st (train_steps seed_steps max_steps : Z)
    : @St ToyTypes :=
  {| ws := {| work_dir := "/exp"%string; cfg := toy_cfg train_steps seed_steps;
              device := "cpu"%string;
              env := set_max_episode_steps toy_env max_steps;
              replay_buffer := toy_buffer; step := 0 |};
     world := 0 |}.

(** The toy world with an environment that ends an episode every third
    step. *)
Definition toy_X : @Externals ToyTypes := ToyExternals 3.

(** A run of four training steps with two warm-up steps and at most two
    steps per episode. *)
Definition toy_run_trace : list Event :=
  (run (X := toy_X) 50 (toy_st 4 2 2)).2.

(** The whole program on the same configuration. *)
Definition toy_main_trace : list Event :=
  (main (X := toy_X) 50 (toy_cfg 4 2) 0).2.

(** The workspace [__init__] builds in the toy world. *)
Definition toy_workspace : @Workspace ToyTypes :=
  {| work_dir := "/exp"%string; cfg := toy_cfg 4 2; device := "cpu"%string;
     env := set_max_episode_steps toy_env 250;
     replay_buffer := toy_buffer; step := 0 |}.

(** Well-formed buffers: a positive capacity and a size that is not
    negative. *)
Definition toy_good (b : Buffer Z Z Z string) : Prop :=
  0 < capacity b /\ 0 <= size b.

(* ------------------------------------------------------------------ *)
(** ** A monitor for the calls of the rollout loop

    The monitor reads a trace one call at a time and only moves on calls
    that respect the discipline of the loop: updates happen between two
    insertions and after the warm-up, a rollout step is followed at once by
    the insertion of its transition.  [run] is shown to produce only traces
    the monitor accepts; the statements about traces follow from that. *)

Section Monitor.
Context {T : DataTypes} {X : Externals}.
Variables (seed_steps max_steps step0 : Z).

Record Mon := mkMon {
  m_adds : Z;                          (* insertions seen *)
  m_buf : RB;                          (* the buffer they produce *)
  m_cur_obs : option Obs;              (* observation held by the loop *)
  m_esteps : Z;                        (* rollout steps of the episode *)
  m_pending : option (Action * Obs * Reward * bool)
                                       (* a step awaiting its insertion *)
}.

(** Calls that are no business of the monitor. *)
Definition neutral (e : Event) : Prop :=
  match e with
  | EvCall _ | EvReset Eval _ | EvSampleAction _ | EvAct _ _ _
  | EvEnvStep Eval _ _ _ _ _ _ => True
  | _ => False
  end.

Inductive mon_step : Mon -> Event -> Mon -> Prop :=
| ms_neutral mu e :
    m_pending mu = None -> neutral e ->
    mon_step mu e mu
| ms_reset mu o :
    m_pending mu = None ->
    mon_step mu (EvReset Train o)
             {| m_adds := m_adds mu; m_buf := m_buf mu;
                m_cur_obs := Some o; m_esteps := 0; m_pending := None |}
| ms_update mu :
    m_pending mu = None ->
    seed_steps <= step0 + m_adds mu ->
    mon_step mu (EvUpdate (step0 + m_adds mu)) mu
| ms_step mu o a o' r d :
    m_pending mu = None ->
    m_cur_obs mu = Some o ->
    mon_step mu (EvEnvStep Train (step0 + m_adds mu) (m_esteps mu) a o' r d)
             {| m_adds := m_adds mu; m_buf := m_buf mu;
                m_cur_obs := m_cur_obs mu; m_esteps := m_esteps mu;
                m_pending := Some (a, o', r, d) |}
| ms_add mu o a o' r d :
    m_pending mu = Some (a, o', r, d) ->
    m_cur_obs mu = Some o ->
    let dn := float_of_bool d in
    let dnm := if m_esteps mu + 1 =? max_steps then 0 else dn in
    mon_step mu (EvAdd o a r o' dn dnm)
             {| m_adds := m_adds mu + 1;
                m_buf := apply_event (m_buf mu) (EvAdd o a r o' dn dnm);
                m_cur_obs := Some o'; m_esteps := m_esteps mu + 1;
                m_pending := None |}.

Inductive accepts : Mon -> list Event -> Mon -> Prop :=
| acc_nil mu : accepts mu [] mu
| acc_cons mu e mu1 t mu2 :
    mon_step mu e mu1 -> accepts mu1 t mu2 -> accepts mu (e :: t) mu2.

(** 1 while a step awaits its insertion. *)
Definition pending_count (mu : Mon) : Z :=
  match m_pending mu with Some _ => 1 | None => 0 end.

(** What the monitor knows once a pending step is taken into account. *)
Definition mon_obs (mu : Mon) : option Obs :=
  match m_pending mu with
  | Some (_, o', _, _) => Some o'
  | None => m_cur_obs mu
  end.

Definition mon_esteps (mu : Mon) : Z :=
  match m_pending mu with
  | Some _ => m_esteps mu + 1
  | None => m_esteps mu
  end.

(** Specifications of monadic code against the monitor: from a state
    and a monitor state related by [P], the code's trace is accepted and
    leaves them related by [Q] on return and by [E] when it raises or
    runs out of fuel.  Only the workspace part of the state is
    constrained; the world of the collaborators is arbitrary. *)
Definition triple {A} (P : Workspace -> Mon -> Prop) (m : M St A)
    (Q : A -> Workspace -> Mon -> Prop) (E : Workspace -> Mon -> Prop) : Prop :=
  forall st mu, P (ws st) mu ->
    exists mu', accepts mu (m st).2 mu' /\
      match (m st).1.1 with
      | Returned a => Q a (ws (m st).1.2) mu'
      | _ => E (ws (m st).1.2) mu'
      end.

(** Code that changes neither the workspace object nor the monitor. *)
Definition quiet {A} (m : M St A) : Prop :=
  forall w0 mu0, m_pending mu0 = None ->
    triple (fun w mu => w = w0 /\ mu = mu0) m
           (fun _ w mu => w = w0 /\ mu = mu0)
           (fun w mu => w = w0 /\ mu = mu0).

(** The invariants of the rollout loop. *)
Definition EInv (w : Workspace) (mu : Mon) : Prop :=
  replay_buffer w = m_buf mu /\ m_pending mu = None.

Definition Inv (c0 : Cfg) (e0 : Env) (w : Workspace) (mu : Mon) : Prop :=
  cfg w = c0 /\ env w = e0 /\ step w = step0 + m_adds mu /\ EInv w mu.

Definition StrongL (l : Locals) (mu : Mon) : Prop :=
  l_obs l = m_cur_obs mu /\ is_Some (m_cur_obs mu) /\
  l_episode_step l = m_esteps mu.

Definition LInv (l : Locals) (mu : Mon) : Prop :=
  truthy (l_done l) = true \/ StrongL l mu.

(** The state of the loop body after its [if done:] block. *)
Definition JInv (c0 : Cfg) (e0 : Env) (l : Locals) (w : Workspace)
    (mu : Mon) : Prop :=
  Inv c0 e0 w mu /\ StrongL l mu.

(** The state between the rollout step and its insertion. *)
Definition Pending (c0 : Cfg) (e0 : Env) (l : Locals) (a : Action)
    (r : Obs * Reward * bool) (w : Workspace) (mu : Mon) : Prop :=
  cfg w = c0 /\ env w = e0 /\ step w = step0 + m_adds mu /\
  replay_buffer w = m_buf mu /\
  m_pending mu = Some (a, r.1.1, r.1.2, r.2) /\ StrongL l mu.

(** The state after the insertion, before [self.step += 1]. *)
Definition Added (c0 : Cfg) (e0 : Env) (l : Locals) (o' : Obs)
    (w : Workspace) (mu : Mon) : Prop :=
  cfg w = c0 /\ env w = e0 /\ step w + 1 = step0 + m_adds mu /\
  EInv w mu /\ m_cur_obs mu = Some o' /\ m_esteps mu = l_episode_step l + 1.

(** The monitor at the start of [run]. *)
Definition init_mon (w : Workspace) : Mon :=
  {| m_adds := 0; m_buf := replay_buffer w; m_cur_obs := None;
     m_esteps := 1; m_pending := None |}.
End Monitor.

(* ------------------------------------------------------------------ *)
(** ** The name locals of [make_env] *)

(** [s.split(sep)] for a one-character separator. *)
Fixpoint py_split (sep : ascii) (s : string) : list string :=
  match s with
  | EmptyString => [EmptyString]
  | String ch rest =>
      if Ascii.eqb ch sep then EmptyString :: py_split sep rest
      else match py_split sep rest with
           | piece :: pieces => String ch piece :: pieces
           | [] => [String ch EmptyString]
           end
  end.

(** [sep.join(pieces)] *)
Definition py_join (sep : string) (pieces : list string) : string :=
  String.concat sep pieces.

(** Whether the character occurs in the string. *)
Fixpoint has_char (ch : ascii) (s : string) : bool :=
  match s with
  | EmptyString => false
  | String ch' rest => Ascii.eqb ch' ch || has_char ch rest
  end.

(** The locals [domain_name], [task_name] and [camera_id] that [make_env]
    computes from [cfg.env].  [None] stands for the [IndexError] of
    [split('_')[0]] on an empty list. *)
Definition make_env_names (env_name : string) : option (string * string * Z) :=
  let names :=
    if String.eqb env_name "ball_in_cup_catch" then
      Some ("ball_in_cup"%string, "catch"%string)
    else if String.eqb env_name "point_mass_easy" then
      Some ("point_mass"%string, "easy"%string)
    else
      match py_split "_" env_name with
      | domain_name :: rest => Some (domain_name, py_join "_" rest)
      | [] => None
      end in
  match names with
  | Some (domain_name, task_name) =>
      (* per dreamer *)
      let camera_id := if String.eqb domain_name "quadruped" then 2 else 0 in
      Some (domain_name, task_name, camera_id)
  | None => None
  end.

(* ------------------------------------------------------------------ *)
(** ** Specifications by outcome, final workspace and trace *)

Section Hoare.
Context {T : DataTypes} {X : Externals}.

(** From a state whose workspace is [w0], the code ends with an outcome,
    a workspace and a trace related by [Q]; the world of the collaborators
    is arbitrary. *)
Definition hoare {A} (w0 : Workspace) (m : M St A)
    (Q : outcome A -> Workspace -> list Event -> Prop) : Prop :=
  forall st, ws st = w0 -> Q (m st).1.1 (ws (m st).1.2) (m st).2.

Definition returned {A} (o : outcome A) : bool :=
  match o with Returned _ => true | _ => false end.

(** Calls that are neither a rollout step nor an insertion. *)
Definition calm (e : Event) : Prop :=
  is_rollout_step e = false /\ is_add e = false.

Definition is_call (e : Event) : Prop :=
  match e with EvCall _ => True | _ => False end.

(** The calls [evaluate] may make: effect-only calls, and resets, steps
    and deterministic actions of its own episode loop. *)
Definition eval_event (e : Event) : Prop :=
  match e with
  | EvCall _ | EvReset Eval _ | EvAct _ false _
  | EvEnvStep Eval _ _ _ _ _ _ => True
  | _ => False
  end.

Definition is_eval_reset (e : Event) : bool :=
  match e with EvReset Eval _ => true | _ => false end.

(** An evaluation step on which the environment reported [done]. *)
Definition is_eval_done (e : Event) : bool :=
  match e with EvEnvStep Eval _ _ _ _ _ d => d | _ => false end.

Definition is_video_save (e : Event) : bool :=
  match e with EvCall (VideoSave _) => true | _ => false end.

(** The [enabled] flags of the [video_recorder.init] calls of a trace. *)
Definition video_inits (t : list Event) : list bool :=
  flat_map (fun e => match e with
                     | EvCall (VideoInit enabled) => [enabled]
                     | _ => []
                     end) t.

(** The reward bookkeeping of [evaluate], read off a trace: the pair of
    [average_episode_reward] and [episode_reward].  A reset starts an
    episode at zero, a step adds its reward, and the episode's sum joins
    the running total when the episode's video is saved. *)
Definition eval_rewards_step (acc : Reward * Reward) (e : Event)
    : Reward * Reward :=
  match e with
  | EvReset Eval _ => (acc.1, reward_zero)
  | EvEnvStep Eval _ _ _ _ r _ => (acc.1, reward_add acc.2 r)
  | EvCall (VideoSave _) => (reward_add acc.1 acc.2, acc.2)
  | _ => acc
  end.

Definition eval_rewards (t : list Event) (acc : Reward * Reward)
    : Reward * Reward :=
  fold_left eval_rewards_step t acc.

(** The workspace attributes that are set once, in [__init__]. *)
Definition same_config (w w' : Workspace) : Prop :=
  work_dir w' = work_dir w /\ cfg w' = cfg w /\
  device w' = device w /\ env w' = env w.

(** How the rollout loop picks the action of the step at [self.step = s]. *)
Definition select_event (c : Cfg) (s : Z) (o : Obs) (a : Action) : Event :=
  if s <? num_seed_steps c then EvSampleAction a else EvAct o true a.

(** The update calls of the step at [self.step = s]. *)
Definition updates_of (c : Cfg) (s : Z) : list Event :=
  repeat (EvUpdate s)
         (if num_seed_steps c <=? s then Z.to_nat (num_train_iters c) else O).

(** What the rollout loop does to the environment, in order: a reset,
    or a step together with the [done] it got back. *)
Inductive Item :=
| ItReset
| ItStep (done_ : bool).

Definition rollout_items (t : list Event) : list Item :=
  flat_map (fun e => match e with
                     | EvReset Train _ => [ItReset]
                     | EvEnvStep Train _ _ _ _ _ d => [ItStep d]
                     | _ => []
                     end) t.

(** The reset discipline: a reset comes exactly when one is due, which is
    at the start and after a step that reported [done]; a step comes
    exactly when no reset is due. *)
Fixpoint items_ok (reset_due : bool) (l : list Item) : Prop :=
  match l with
  | [] => True
  | ItReset :: rest => reset_due = true /\ items_ok false rest
  | ItStep d :: rest => reset_due = false /\ items_ok d rest
  end.

(** Calls that are no reset, step or insertion of the rollout loop. *)
Definition bystander (e : Event) : Prop :=
  match e with
  | EvCall _ | EvReset Eval _ | EvSampleAction _ | EvAct _ _ _
  | EvUpdate _ | EvEnvStep Eval _ _ _ _ _ _ => True
  | _ => False
  end.

(** The calls of a pass through the loop body that reached its
    insertion: the calls of the [if done:] block (with a reset if one was
    due), the choice of the action, the updates, the step and the
    insertion. *)
Definition iteration_shape (w0 : Workspace) (reset_due d : bool)
    (t : list Event) : Prop :=
  exists tb o a o' r es dnm,
    Forall calm tb /\
    rollout_items tb = (if reset_due then [ItReset] else []) /\
    t = tb ++ select_event (cfg w0) (step w0) o a
           :: updates_of (cfg w0) (step w0)
           ++ [EvEnvStep Train (step w0) es a o' r d;
               EvAdd o a r o' (float_of_bool d) dnm].

(** Every rollout step of the trace comes right after the choice of its
    action and its updates, and right before its insertion. *)
Definition step_window (c : Cfg) (t : list Event) : Prop :=
  forall pre s es a o' r d post,
    t = pre ++ EvEnvStep Train s es a o' r d :: post ->
    exists pre0 o dn dnm post',
      post = EvAdd o a r o' dn dnm :: post' /\
      pre = pre0 ++ select_event c s o a :: updates_of c s.

(** What the [if done:] part of the loop body does. *)
Definition BeginQ (w0 : Workspace) (reset_due : bool) (o : outcome Locals)
    (w : Workspace) (t : list Event) : Prop :=
  w = w0 /\ Forall calm t /\
  match o with
  | Returned l1 =>
      is_Some (l_obs l1) /\
      rollout_items t = (if reset_due then [ItReset] else [])
  | _ =>
      rollout_items t = [] \/
      (reset_due = true /\ rollout_items t = [ItReset])
  end.

(** What one pass through the loop body does, entered with locals [l]. *)
Definition IterQ (w0 : Workspace) (l : Locals) (o : outcome Locals)
    (w : Workspace) (t : list Event) : Prop :=
  same_config w0 w /\
  match o with
  | Returned l' =>
      step w = step w0 + 1 /\ is_Some (l_obs l') /\
      iteration_shape w0 (truthy (l_done l)) (truthy (l_done l')) t
  | _ =>
      step w = step w0 /\
      ((Forall calm t /\
        (rollout_items t = [] \/
         (truthy (l_done l) = true /\ rollout_items t = [ItReset]))) \/
       exists d, iteration_shape w0 (truthy (l_done l)) d t)
  end.

(** What the [while] loop of [run] does, entered with a reset due or
    not. *)
Definition LoopQ (w0 : Workspace) (reset_due : bool) (o : outcome unit)
    (w : Workspace) (t : list Event) : Prop :=
  let budget := num_train_steps (cfg w0) in
  same_config w0 w /\
  step_window (cfg w0) t /\
  items_ok reset_due (rollout_items t) /\
  step w0 <= step w <= Z.max (step w0) budget /\
  step w - step w0 <= count_adds t <= step w - step w0 + 1 /\
  count_adds t <= Z.max 0 (budget - step w0) /\
  (returned o = true ->
   budget <= step w /\ count_adds t = step w - step w0).

(** What one evaluation episode does, entered with the flag [done] and
    the sum [er] so far. *)
Definition EpisodeQ (w0 : Workspace) (done : bool) (er : Reward)
    (o : outcome Reward) (w : Workspace) (t : list Event) : Prop :=
  w = w0 /\ Forall eval_event t /\
  count is_eval_reset t = 0 /\ count is_video_save t = 0 /\
  video_inits t = [] /\
  0 <= count is_eval_done t <= (if done then 0 else 1) /\
  match o with
  | Returned er' =>
      count is_eval_done t = (if done then 0 else 1) /\
      forall avg, eval_rewards t (avg, er) = (avg, er')
  | _ => True
  end.

(** What the episode loop of [evaluate] does over [episodes], entered
    with the total [avg]. *)
Definition EpisodesQ (w0 : Workspace) (episodes : list Z) (avg : Reward)
    (o : outcome Reward) (w : Workspace) (t : list Event) : Prop :=
  w = w0 /\ Forall eval_event t /\
  count is_video_save t <= count is_eval_done t /\
  count is_eval_done t <= count is_eval_reset t /\
  count is_eval_reset t <= Z.of_nat (length episodes) /\
  match o with
  | Returned avg' =>
      count is_video_save t = Z.of_nat (length episodes) /\
      video_inits t = map (fun episode => episode =? 0) episodes /\
      forall er, (eval_rewards t (avg, er)).1 = avg'
  | _ => True
  end.
End Hoare.

(** The toy configuration with a chosen number of evaluation episodes
    and evaluation frequency, and a fresh workspace holding it. *)
Definition toy_cfg_eval (episodes frequency : Z) : Cfg :=
  {| cfg_env := "Lift"; seed := 1; image_size := 2; frame_stack := 3;
     action_repeat := 1; cfg_device := "cpu";
     replay_buffer_capacity := 4; image_pad := 1;
     num_eval_episodes := episodes; num_train_steps := 4;
     num_seed_steps := 2; num_train_iters := 1;
     eval_frequency := frequency; save_video := false; log_save_tb := false;
     log_frequency_step := 1; agent_name := "drq" |}.

Definition toy_st_eval (episodes frequency : Z) : @St ToyTypes :=
  {| ws := {| work_dir := "/exp"%string; cfg := toy_cfg_eval episodes frequency;
              device := "cpu"%string;
              env := set_max_episode_steps toy_env 250;
              replay_buffer := toy_buffer; step := 0 |};
     world := 0 |}.

(* ================================================================== *)
(** * Properties of the replay buffer *)

Section SpecBufferFacts.
Context {Obs Action Reward Device : Type}.
Variable shape_of_obs : Obs -> Shape.
Variable shape_of_action : Action -> Shape.

Abbreviation Buf := (Buffer Obs Action Reward Device).
Abbreviation Tr := (Transition Obs Action Reward).

Lemma Buffer_construct_fresh os acs cap p (dev : Device) sd (b : Buf) :
  Buffer_construct os acs cap p dev sd = Ok b ->
  0 < cap /\ capacity b = cap /\ size b = 0 /\ write_index b = 0 /\
  buf_obs_shape b = os /\ buf_action_shape b = acs.
Proof.
  unfold Buffer_construct.
  destruct (cap <=? 0) eqn:Hcap; simpl; [discriminate|].
  destruct (_ || _); [discriminate|].
  intros [= <-]; simpl. apply Z.leb_gt in Hcap. repeat split; auto.
Qed.

Lemma insert_transition_ok (b b' : Buf) (t : Tr) :
  insert_transition shape_of_obs shape_of_action b t = Ok b' ->
  capacity b' = capacity b /\
  buf_obs_shape b' = buf_obs_shape b /\
  buf_action_shape b' = buf_action_shape b /\
  size b' = Z.min (size b + 1) (capacity b) /\
  write_index b' = (write_index b + 1) mod capacity b.
Proof.
  unfold insert_transition, Buffer_insert.
  destruct (_ && _); [|discriminate].
  intros [= <-]; simpl. repeat split; reflexivity.
Qed.

Lemma insert_transition_well_shaped (b : Buf) (t : Tr) :
  well_shaped shape_of_obs shape_of_action b t ->
  exists b', insert_transition shape_of_obs shape_of_action b t = Ok b'.
Proof.
  intros (H1 & H2 & H3). unfold insert_transition, Buffer_insert.
  rewrite !bool_decide_eq_true_2 by assumption. simpl. eauto.
Qed.

(** The cursor arithmetic of a run of insertions, from any buffer whose
    size and write index are in range. *)
Lemma insert_all_cursor (ts : list Tr) : forall (b : Buf),
  0 < capacity b -> 0 <= size b <= capacity b ->
  0 <= write_index b < capacity b ->
  let r := insert_all shape_of_obs shape_of_action b ts in
  capacity r.1 = capacity b /\
  0 <= r.2 /\
  size r.1 = Z.min (size b + r.2) (capacity b) /\
  write_index r.1 = (write_index b + r.2) mod capacity b.
Proof.
  induction ts as [|t ts IH]; intros b Hcap Hsz Hwi; simpl.
  - rewrite !Z.add_0_r, Z.mod_small by lia. lia.
  - destruct (insert_transition _ _ b t) as [b'|e] eqn:Hins.
    + apply insert_transition_ok in Hins as (Hc & _ & _ & Hs & Hw).
      specialize (IH b'). rewrite Hc, Hs, Hw in IH.
      destruct IH as (IH1 & IH2 & IH3 & IH4); [lia | lia | |].
      { apply Z.mod_pos_bound; lia. }
      destruct (insert_all _ _ b' ts) as [b'' n]; simpl in *.
      repeat split; try lia.
      rewrite IH4, Zplus_mod_idemp_l. f_equal; lia.
    + apply IH; assumption.
Qed.

Lemma insert_all_count (ts : list Tr) : forall (b : Buf),
  Forall (well_shaped shape_of_obs shape_of_action b) ts ->
  (insert_all shape_of_obs shape_of_action b ts).2 = Z.of_nat (length ts).
Proof.
  induction ts as [|t ts IH]; intros b Hall; [reflexivity|].
  inversion Hall as [|? ? Ht Hts]; subst. simpl.
  destruct (insert_transition_well_shaped b t Ht) as [b' Hb'].
  rewrite Hb'.
  apply insert_transition_ok in Hb' as (_ & Ho & Ha & _).
  specialize (IH b').
  destruct (insert_all _ _ b' ts) as [b'' n]; simpl in *.
  rewrite IH; [lia|].
  eapply Forall_impl; [exact Hts|].
  unfold well_shaped. intros x. rewrite Ho, Ha. tauto.
Qed.

(** C5 (capacity invariant).  For every sequence of insertions into a
    buffer starting from its construction, the size of the buffer is the
    minimum of the number of insertions performed and the capacity, and
    the write index is that number modulo the capacity.  An insertion
    rejected for its shapes is not performed and leaves the buffer as it
    was; when every transition has the configured shapes the number
    performed is the length of the sequence. *)
Theorem capacity_invariant os acs cap p (dev : Device) sd (b : Buf)
    (ts : list Tr) :
  Buffer_construct os acs cap p dev sd = Ok b ->
  let r := insert_all shape_of_obs shape_of_action b ts in
  size r.1 = Z.min r.2 cap /\
  write_index r.1 = r.2 mod cap /\
  (Forall (well_shaped shape_of_obs shape_of_action b) ts ->
   r.2 = Z.of_nat (length ts)).
Proof.
  intros Hc.
  apply Buffer_construct_fresh in Hc as (Hpos & Hcap & Hs & Hw & _).
  pose proof (insert_all_cursor ts b) as H.
  rewrite Hcap, Hs, Hw in H. simpl in H.
  destruct H as (_ & _ & H3 & H4); [lia..|].
  repeat split; [exact H3 | exact H4 |].
  apply insert_all_count.
Qed.
End SpecBufferFacts.

(* ================================================================== *)
(** * The monitor and the rules of the program logic *)

Section MonitorFacts.
Context {T : DataTypes} {X : Externals}.
Variables (seed_steps max_steps step0 : Z).

Local Abbreviation mon_step := (mon_step seed_steps max_steps step0).
Local Abbreviation accepts := (accepts seed_steps max_steps step0).
Local Abbreviation triple := (triple seed_steps max_steps step0).
Local Abbreviation quiet := (quiet seed_steps max_steps step0).

Lemma accepts_app mu t1 mu1 t2 mu2 :
  accepts mu t1 mu1 -> accepts mu1 t2 mu2 -> accepts mu (t1 ++ t2) mu2.
Proof.
  induction 1 as [|mu e mu' t mu'' Hs _ IH]; intros H2; simpl; [exact H2|].
  econstructor; [exact Hs | exact (IH H2)].
Qed.

Lemma accepts_split mu t1 t2 mu2 :
  accepts mu (t1 ++ t2) mu2 ->
  exists mu1, accepts mu t1 mu1 /\ accepts mu1 t2 mu2.
Proof.
  revert mu. induction t1 as [|e t1 IH]; intros mu H; simpl in H.
  - exists mu. split; [constructor | exact H].
  - inversion H as [|? ? mu' ? ? Hs Hrest]; subst.
    destruct (IH _ Hrest) as (mu1 & Ha & Hb).
    exists mu1. split; [econstructor; eassumption | exact Hb].
Qed.

Lemma accepts_one mu e mu' : mon_step mu e mu' -> accepts mu [e] mu'.
Proof. intros H. econstructor; [exact H | constructor]. Qed.

(** *** Structural rules *)

Lemma triple_conseq {A} (P P' : Workspace -> Mon -> Prop) (m : M St A)
    (Q Q' : A -> Workspace -> Mon -> Prop) (E E' : Workspace -> Mon -> Prop) :
  triple P' m Q' E' ->
  (forall w mu, P w mu -> P' w mu) ->
  (forall a w mu, Q' a w mu -> Q a w mu) ->
  (forall w mu, E' w mu -> E w mu) ->
  triple P m Q E.
Proof.
  intros H HP HQ HE st mu Hpre.
  destruct (H st mu (HP _ _ Hpre)) as (mu' & Hacc & Hpost).
  exists mu'. split; [exact Hacc|].
  destruct ((m st).1.1); auto.
Qed.

Lemma triple_pre {A} (P P' : Workspace -> Mon -> Prop) (m : M St A) Q E :
  triple P' m Q E ->
  (forall w mu, P w mu -> P' w mu) ->
  triple P m Q E.
Proof. intros H HP. eapply triple_conseq; [exact H | exact HP | auto | auto]. Qed.

Lemma triple_ret {A} (P : Workspace -> Mon -> Prop) (a : A) Q E :
  (forall w mu, P w mu -> Q a w mu) ->
  triple P (ret a) Q E.
Proof.
  intros H st mu Hpre. exists mu. split; [constructor|]. simpl. auto.
Qed.

Lemma triple_raise {A} (P : Workspace -> Mon -> Prop) (e : Exn)
    (Q : A -> _) E :
  (forall w mu, P w mu -> E w mu) ->
  triple P (raise e) Q E.
Proof.
  intros H st mu Hpre. exists mu. split; [constructor|]. simpl. auto.
Qed.

Lemma triple_out_of_fuel {A} (P : Workspace -> Mon -> Prop)
    (Q : A -> _) E :
  (forall w mu, P w mu -> E w mu) ->
  triple P out_of_fuel Q E.
Proof.
  intros H st mu Hpre. exists mu. split; [constructor|]. simpl. auto.
Qed.

Lemma triple_bind {A B} (P : Workspace -> Mon -> Prop) (m : M St A)
    (R : A -> Workspace -> Mon -> Prop) (f : A -> M St B) Q E :
  triple P m R E ->
  (forall a, triple (R a) (f a) Q E) ->
  triple P (bind m f) Q E.
Proof.
  intros Hm Hf st mu Hpre.
  destruct (Hm st mu Hpre) as (mu1 & Hacc1 & Hpost1).
  unfold bind.
  destruct (m st) as [[o s1] t1]; simpl in *.
  destruct o as [a| |].
  - destruct (Hf a s1 mu1 Hpost1) as (mu2 & Hacc2 & Hpost2).
    destruct (f a s1) as [[o2 s2] t2]; simpl in *.
    exists mu2. split; [eapply accepts_app; eassumption | exact Hpost2].
  - exists mu1. simpl. auto.
  - exists mu1. simpl. auto.
Qed.

(** Reading an attribute of [self]. *)
Lemma triple_self {A B} (P : Workspace -> Mon -> Prop) (f : Workspace -> A)
    (k : A -> M St B) Q E :
  (forall a, triple (fun w mu => P w mu /\ f w = a) (k a) Q E) ->
  triple P (bind (self f) k) Q E.
Proof.
  intros Hk. eapply triple_bind; [|exact Hk].
  intros st mu Hpre. exists mu. split; [constructor|]. simpl. auto.
Qed.

(** Facts that do not depend on the state can be pulled out of the
    precondition. *)
Lemma triple_pure {A} (F : Prop) (P : Workspace -> Mon -> Prop)
    (m : M St A) Q E :
  (forall w mu, P w mu -> F) ->
  (F -> triple P m Q E) ->
  triple P m Q E.
Proof. intros HF H st mu Hpre. exact (H (HF _ _ Hpre) st mu Hpre). Qed.

(** *** Quiet code *)

Lemma quiet_ret {A} (a : A) : quiet (ret a).
Proof. intros w0 mu0 _. apply triple_ret. auto. Qed.

Lemma quiet_raise {A} (e : Exn) : quiet (@raise _ St A e).
Proof. intros w0 mu0 _. apply triple_raise. auto. Qed.

Lemma quiet_out_of_fuel {A} : quiet (@out_of_fuel _ St A).
Proof. intros w0 mu0 _. apply triple_out_of_fuel. auto. Qed.

Lemma quiet_self {A} (f : Workspace -> A) : quiet (self f).
Proof.
  intros w0 mu0 _ st mu Hpre. exists mu. split; [constructor|]. simpl. auto.
Qed.

Lemma quiet_bind {A B} (m : M St A) (f : A -> M St B) :
  quiet m -> (forall a, quiet (f a)) -> quiet (bind m f).
Proof.
  intros Hm Hf w0 mu0 Hp.
  eapply triple_bind; [exact (Hm w0 mu0 Hp)|].
  intros a. exact (Hf a w0 mu0 Hp).
Qed.

Lemma quiet_if {A} (b : bool) (m1 m2 : M St A) :
  quiet m1 -> quiet m2 -> quiet (if b then m1 else m2).
Proof. destruct b; auto. Qed.

Lemma quiet_call {A} (f : World -> result A * World) :
  quiet (in_world (call f)).
Proof.
  intros w0 mu0 _ st mu Hpre. exists mu.
  unfold in_world, call. destruct (f (world st)) as [[a|e] w'];
    simpl; (split; [constructor | exact Hpre]).
Qed.

Lemma quiet_effect (c : Call) : quiet (in_world (effect c)).
Proof.
  intros w0 mu0 Hp st mu [Hw ->]. exists mu0.
  unfold in_world, effect, bind, emit, call.
  destruct (ext_effect c (world st)) as [[[]|e] w']; simpl;
    (split; [apply accepts_one, ms_neutral; [exact Hp | exact I] | auto]).
Qed.

Lemma quiet_logger_log key v s : quiet (logger_log key v s).
Proof. apply quiet_effect. Qed.

Lemma quiet_py_mod a b : quiet (@py_mod _ St a b).
Proof. unfold py_mod. apply quiet_if; [apply quiet_raise | apply quiet_ret]. Qed.

Lemma quiet_py_div r n : quiet (@py_div _ _ St r n).
Proof. unfold py_div. apply quiet_if; [apply quiet_raise | apply quiet_ret]. Qed.

Lemma quiet_read_obs l : quiet (read_obs l).
Proof.
  unfold read_obs. destruct (l_obs l); [apply quiet_ret | apply quiet_raise].
Qed.

Lemma quiet_do_reset_eval : quiet (do_reset Eval).
Proof.
  intros w0 mu0 Hp st mu [Hw ->]. exists mu0.
  unfold do_reset, in_world, bind, emit, call, ret.
  destruct (env_reset (world st)) as [[o|e] w']; simpl;
    (split; [first [apply accepts_one, ms_neutral; [exact Hp | exact I]
                   | constructor] | auto]).
Qed.

Lemma quiet_do_act o sample : quiet (do_act o sample).
Proof.
  intros w0 mu0 Hp st mu [Hw ->]. exists mu0.
  unfold do_act, in_world, bind, emit, call, ret.
  destruct (agent_act o sample (world st)) as [[a|e] w']; simpl;
    (split; [first [apply accepts_one, ms_neutral; [exact Hp | exact I]
                   | constructor] | auto]).
Qed.

Lemma quiet_sample_action :
  quiet (in_world (a <- call action_space_sample ;;
                   emit (EvSampleAction a) ;; ret a)).
Proof.
  intros w0 mu0 Hp st mu [Hw ->]. exists mu0.
  unfold in_world, bind, emit, call, ret.
  destruct (action_space_sample (world st)) as [[a|e] w']; simpl;
    (split; [first [apply accepts_one, ms_neutral; [exact Hp | exact I]
                   | constructor] | auto]).
Qed.

Lemma quiet_do_step_eval es a : quiet (do_step Eval es a).
Proof.
  apply quiet_bind; [apply quiet_self|]. intros s.
  intros w0 mu0 Hp st mu [Hw ->]. exists mu0.
  unfold in_world, bind, emit, call, ret.
  destruct (env_step a (world st)) as [[r|e] w']; simpl;
    (split; [first [apply accepts_one, ms_neutral; [exact Hp | exact I]
                   | constructor] | auto]).
Qed.

(** Quiet code in front of a continuation: the precondition carries
    over, provided it excludes a pending step and implies the
    exceptional postcondition. *)
Lemma triple_quiet_bind {A B} (P : Workspace -> Mon -> Prop) (m : M St A)
    (f : A -> M St B) Q E :
  quiet m ->
  (forall w mu, P w mu -> m_pending mu = None /\ E w mu) ->
  (forall a, triple P (f a) Q E) ->
  triple P (bind m f) Q E.
Proof.
  intros Hm HP Hf st mu Hpre.
  destruct (HP _ _ Hpre) as [Hp HE].
  destruct (Hm (ws st) mu Hp st mu (conj eq_refl eq_refl))
    as (mu1 & Hacc1 & Hpost1).
  unfold bind.
  destruct (m st) as [[o s1] t1]; simpl in *.
  destruct o as [a| |]; destruct Hpost1 as [Hw ->].
  - rewrite <- Hw in Hpre.
    destruct (Hf a s1 mu Hpre) as (mu2 & Hacc2 & Hpost2).
    destruct (f a s1) as [[o2 s2] t2]; simpl in *.
    exists mu2. split; [eapply accepts_app; eassumption | exact Hpost2].
  - exists mu. simpl. rewrite Hw. auto.
  - exists mu. simpl. rewrite Hw. auto.
Qed.

(** *** [evaluate] is quiet *)

Lemma quiet_evaluate_episode fuel : forall obs done er es,
  quiet (evaluate_episode fuel obs done er es).
Proof.
  induction fuel as [|fuel IH]; intros obs done er es; simpl;
    (destruct done; [apply quiet_ret|]).
  - apply quiet_out_of_fuel.
  - apply quiet_bind; [apply quiet_do_act|]. intros a.
    apply quiet_bind; [apply quiet_do_step_eval|]. intros [[o r] d].
    apply quiet_bind; [apply quiet_effect|]. intros _. apply IH.
Qed.

Lemma quiet_evaluate_episodes fuel episodes : forall avg,
  quiet (evaluate_episodes fuel episodes avg).
Proof.
  induction episodes as [|ep rest IH]; intros avg; simpl.
  - apply quiet_ret.
  - apply quiet_bind; [apply quiet_do_reset_eval|]. intros o.
    apply quiet_bind; [apply quiet_effect|]. intros _.
    apply quiet_bind; [apply quiet_evaluate_episode|]. intros er.
    apply quiet_bind; [apply quiet_self|]. intros s.
    apply quiet_bind; [apply quiet_effect|]. intros _. apply IH.
Qed.

Lemma quiet_evaluate fuel : quiet (evaluate fuel).
Proof.
  unfold evaluate.
  apply quiet_bind; [apply quiet_self|]. intros c.
  apply quiet_bind; [apply quiet_evaluate_episodes|]. intros avg.
  apply quiet_bind; [apply quiet_py_div|]. intros avg'.
  apply quiet_bind; [apply quiet_self|]. intros s.
  apply quiet_bind; [apply quiet_logger_log|]. intros _.
  apply quiet_bind; [apply quiet_self|]. intros s'.
  apply quiet_effect.
Qed.
End MonitorFacts.

(* ================================================================== *)
(** * The rollout loop respects the monitor *)

Section RunFacts.
Context {T : DataTypes} {X : Externals}.
Variables (c0 : Cfg) (e0 : Env) (step0 : Z).

Local Abbreviation seed_steps := (num_seed_steps c0).
Local Abbreviation max_steps := (_max_episode_steps e0).
Local Abbreviation mon_step := (mon_step seed_steps max_steps step0).
Local Abbreviation accepts := (accepts seed_steps max_steps step0).
Local Abbreviation triple := (triple seed_steps max_steps step0).
Local Abbreviation quiet := (quiet seed_steps max_steps step0).
Local Abbreviation I := (Inv step0 c0 e0).
Local Abbreviation J := (JInv step0 c0 e0).
Local Abbreviation Pending := (Pending step0 c0 e0).
Local Abbreviation Added := (Added step0 c0 e0).

Lemma Inv_quiet_side w mu : I w mu -> m_pending mu = None /\ EInv w mu.
Proof. intros (_ & _ & _ & HE). split; [apply HE | exact HE]. Qed.

Lemma triple_reset_train :
  triple I (do_reset Train)
         (fun o w mu => I w mu /\ m_cur_obs mu = Some o /\ m_esteps mu = 0)
         EInv.
Proof.
  intros st mu HI.
  pose proof HI as (Hc & He & Hs & Hb & Hp).
  unfold do_reset, in_world, bind, emit, call, ret.
  destruct (env_reset (world st)) as [[o|e] w']; simpl.
  - eexists. split; [apply accepts_one, ms_reset; exact Hp|].
    simpl. repeat split; assumption.
  - exists mu. split; [constructor | split; assumption].
Qed.

Lemma triple_begin_episode fuel l :
  triple I (begin_episode fuel l)
         (fun l' w mu => I w mu /\ StrongL l' mu) EInv.
Proof.
  unfold begin_episode.
  apply triple_quiet_bind; [apply quiet_self | apply Inv_quiet_side |].
  intros c.
  apply triple_quiet_bind; [apply quiet_self | apply Inv_quiet_side |].
  intros s.
  apply triple_quiet_bind; [| apply Inv_quiet_side |].
  { apply quiet_if; [|apply quiet_ret].
    apply quiet_bind; [apply quiet_call|]. intros now.
    apply quiet_bind; [apply quiet_self|]. intros s1.
    apply quiet_bind; [apply quiet_logger_log|]. intros _.
    apply quiet_bind; [apply quiet_call|]. intros st.
    apply quiet_bind; [apply quiet_self|]. intros s2.
    apply quiet_bind; [apply quiet_effect|]. intros _. apply quiet_ret. }
  intros start_time.
  apply triple_quiet_bind; [apply quiet_self | apply Inv_quiet_side |].
  intros s1.
  apply triple_quiet_bind; [apply quiet_py_mod | apply Inv_quiet_side |].
  intros m.
  apply triple_quiet_bind; [| apply Inv_quiet_side |].
  { apply quiet_if; [|apply quiet_ret].
    apply quiet_bind; [apply quiet_self|]. intros s2.
    apply quiet_bind; [apply quiet_logger_log|]. intros _.
    apply quiet_evaluate. }
  intros _.
  apply triple_quiet_bind; [apply quiet_self | apply Inv_quiet_side |].
  intros s2.
  apply triple_quiet_bind; [apply quiet_logger_log | apply Inv_quiet_side |].
  intros _.
  eapply triple_bind; [apply triple_reset_train|]. intros o.
  apply triple_quiet_bind; [apply quiet_self | |].
  { intros w mu (HI & _). apply Inv_quiet_side, HI. }
  intros s3.
  apply triple_quiet_bind; [apply quiet_logger_log | |].
  { intros w mu (HI & _). apply Inv_quiet_side, HI. }
  intros _.
  apply triple_ret. intros w mu (HI & Hcur & Hes).
  split; [exact HI|].
  unfold StrongL; simpl. rewrite Hcur, Hes. repeat split; eauto.
Qed.

Lemma J_quiet_side l w mu : J l w mu -> m_pending mu = None /\ EInv w mu.
Proof. intros [HI _]. apply Inv_quiet_side, HI. Qed.

Lemma triple_do_update l :
  triple (fun w mu => J l w mu /\ seed_steps <= step w) do_update
         (fun _ w mu => J l w mu /\ seed_steps <= step w) EInv.
Proof.
  intros st mu [HJ Hseed].
  pose proof HJ as ((Hc & He & Hs & Hb & Hp) & HL).
  unfold do_update, self, gets, in_world, bind, emit, call; simpl.
  exists mu.
  destruct (agent_update _ _ (world st)) as [[[]|e] w']; simpl;
    (split; [rewrite Hs; apply accepts_one, ms_update;
               [exact Hp | rewrite <- Hs; exact Hseed]
            | first [split; assumption | split; assumption]]).
Qed.

Lemma triple_update_loop l iters :
  triple (fun w mu => J l w mu /\ seed_steps <= step w) (update_loop iters)
         (fun _ w mu => J l w mu) EInv.
Proof.
  induction iters as [|i rest IH]; simpl.
  - apply triple_ret. intros w mu HJ. apply HJ.
  - eapply triple_bind; [apply triple_do_update|]. intros u. exact IH.
Qed.

Lemma triple_do_step_train l a :
  triple (J l) (do_step Train (l_episode_step l) a) (Pending l a) EInv.
Proof.
  intros st mu HJ.
  pose proof HJ as ((Hc & He & Hs & Hb & Hp) & (Ho & [o Hcur] & Hes)).
  unfold do_step, self, gets, in_world, bind, emit, call, ret; simpl.
  destruct (env_step a (world st)) as [[[[o' r] d]|e] w']; simpl.
  - eexists. split.
    + rewrite Hs, Hes. apply accepts_one. eapply ms_step; eassumption.
    + unfold Pending, StrongL; simpl. repeat split; eauto.
  - exists mu. split; [constructor | split; assumption].
Qed.

Lemma triple_replay_buffer_add l a o o' r d :
  triple (fun w mu => Pending l a (o', r, d) w mu /\ l_obs l = Some o)
         (replay_buffer_add o a r o' (float_of_bool d)
            (if l_episode_step l + 1 =? max_steps then 0 else float_of_bool d))
         (fun _ => Added l o') EInv.
Proof.
  intros st mu [(Hc & He & Hs & Hb & Hp & (Ho & _ & Hes)) Hobs].
  simpl in Hp. rewrite Hobs in Ho. symmetry in Ho.
  pose proof (ms_add seed_steps max_steps step0 mu o a o' r d Hp Ho) as Hstep.
  simpl in Hstep. rewrite <- Hes in Hstep.
  unfold replay_buffer_add, self, gets, of_result, modify, bind, emit, ret, raise;
    simpl.
  rewrite Hb.
  destruct (ReplayBuffer_add (m_buf mu) o a r o' _ _) as [rb'|e] eqn:Hadd;
    simpl;
    (eexists; split; [apply accepts_one; exact Hstep|]);
    unfold Added, EInv; simpl; repeat split; auto; lia.
Qed.

Lemma triple_incr_step l o' :
  triple (Added l o') incr_step
         (fun _ w mu => I w mu /\ m_cur_obs mu = Some o' /\
                        m_esteps mu = l_episode_step l + 1) EInv.
Proof.
  intros st mu (Hc & He & Hs & HE & Hcur & Hes).
  exists mu. split; [constructor|]. simpl.
  repeat split; auto; try apply HE; simpl; lia.
Qed.

Lemma triple_self_const {A B} (P : Workspace -> Mon -> Prop)
    (f : Workspace -> A) (a0 : A) (k : A -> M St B) Q E :
  (forall w mu, P w mu -> f w = a0) ->
  triple P (k a0) Q E ->
  triple P (bind (self f) k) Q E.
Proof.
  intros Hf Hk. apply triple_self. intros a.
  apply triple_pure with (F := a = a0).
  { intros w mu [HP <-]. eauto. }
  intros ->. eapply triple_conseq; [exact Hk | | |]; auto.
  intros w mu [HP _]. exact HP.
Qed.

Lemma triple_read_obs {B} (P : Workspace -> Mon -> Prop) l
    (k : Obs -> M St B) Q E :
  (forall w mu, P w mu -> is_Some (l_obs l)) ->
  (forall o, l_obs l = Some o -> triple P (k o) Q E) ->
  triple P (bind (read_obs l) k) Q E.
Proof.
  intros Hsome Hk.
  apply triple_pure with (F := is_Some (l_obs l)); [exact Hsome|].
  intros [o Ho]. unfold read_obs. rewrite Ho.
  eapply triple_bind with (R := fun o1 w mu => P w mu /\ o1 = o).
  { apply triple_ret. auto. }
  intros o1. apply triple_pure with (F := o1 = o); [tauto|]. intros ->.
  eapply triple_conseq; [exact (Hk o Ho) | | |]; auto.
  intros w mu [HP _]. exact HP.
Qed.

Lemma triple_run_iteration fuel l :
  triple (fun w mu => I w mu /\ LInv l mu) (run_iteration fuel l)
         (fun l' w mu => I w mu /\ LInv l' mu) EInv.
Proof.
  unfold run_iteration.
  eapply triple_bind with (R := fun l1 w mu => J l1 w mu).
  { destruct (truthy (l_done l)) eqn:Hd.
    - eapply triple_conseq; [apply triple_begin_episode | | |]; auto.
      intros w mu [HI _]. exact HI.
    - apply triple_ret. intros w mu [HI [Hl|Hl]]; [congruence|].
      split; assumption. }
  clear l. intros l.
  apply triple_self_const with (a0 := c0).
  { intros w mu ((Hc & _) & _). exact Hc. }
  apply triple_self. intros s.
  apply triple_quiet_bind.
  { apply quiet_if; [apply quiet_sample_action|].
    apply quiet_bind; [apply quiet_read_obs|]. intros o. apply quiet_do_act. }
  { intros w mu (HJ & _). eapply J_quiet_side, HJ. }
  intros action.
  apply triple_self. intros s1.
  eapply triple_bind with (R := fun _ w mu => J l w mu).
  { destruct (seed_steps <=? s1) eqn:Hseed.
    - eapply triple_conseq; [apply triple_update_loop with (l := l) | | |]; auto.
      intros w mu ((HJ & _) & Hs1).
      split; [exact HJ|]. rewrite Hs1. apply Z.leb_le, Hseed.
    - apply triple_ret. intros w mu ((HJ & _) & _). exact HJ. }
  intros _.
  eapply triple_bind; [apply triple_do_step_train|].
  intros [[next_obs reward] d].
  apply triple_self_const with (a0 := e0).
  { intros w mu (_ & He & _). exact He. }
  apply triple_read_obs.
  { intros w mu (_ & _ & _ & _ & _ & (Ho & Hs & _)). rewrite Ho. exact Hs. }
  intros o Ho.
  eapply triple_bind.
  { eapply triple_pre;
      [apply triple_replay_buffer_add with (l := l) (o := o)|].
    intros w mu HP. split; [exact HP | exact Ho]. }
  intros u1.
  eapply triple_bind; [apply triple_incr_step|]. intros u2.
  apply triple_ret. intros w mu (HI & Hcur & Hes).
  split; [exact HI|]. right. unfold StrongL; simpl.
  rewrite Hcur, Hes. repeat split; eauto.
Qed.

Lemma triple_run_loop fuel : forall l,
  triple (fun w mu => I w mu /\ LInv l mu) (run_loop fuel l)
         (fun _ => EInv) EInv.
Proof.
  induction fuel as [|fuel IH]; intros l; simpl.
  - apply triple_self. intros c. apply triple_self. intros s.
    destruct (s <? num_train_steps c).
    + apply triple_out_of_fuel. intros w mu (((HI & _) & _) & _).
      apply Inv_quiet_side, HI.
    + apply triple_ret. intros w mu (((HI & _) & _) & _).
      apply Inv_quiet_side, HI.
  - apply triple_self. intros c. apply triple_self. intros s.
    destruct (s <? num_train_steps c).
    + eapply triple_bind with (R := fun l' w mu => I w mu /\ LInv l' mu).
      * eapply triple_conseq; [apply triple_run_iteration | | |]; auto.
        intros w mu ((HP & _) & _). exact HP.
      * intros l'. apply IH.
    + apply triple_ret. intros w mu (((HI & _) & _) & _).
      apply Inv_quiet_side, HI.
Qed.

Lemma triple_run fuel : triple I (run fuel) (fun _ => EInv) EInv.
Proof.
  unfold run.
  apply triple_quiet_bind; [apply quiet_call | apply Inv_quiet_side |].
  intros start_time.
  eapply triple_conseq; [apply triple_run_loop | | |]; auto.
  intros w mu HI. split; [exact HI|]. left. reflexivity.
Qed.
End RunFacts.

Section RunAccepted.
Context {T : DataTypes} {X : Externals}.

(** Every execution of [run], from any workspace and world and for any
    fuel, produces a trace the monitor accepts, and ends with the buffer
    the monitor computed and no step awaiting its insertion. *)
Lemma run_accepted fuel (st : St) :
  exists mu',
    accepts (num_seed_steps (cfg (ws st))) (_max_episode_steps (env (ws st)))
            (step (ws st)) (init_mon (ws st)) (run fuel st).2 mu' /\
    replay_buffer (ws (run fuel st).1.2) = m_buf mu' /\
    m_pending mu' = None.
Proof.
  destruct (triple_run (cfg (ws st)) (env (ws st)) (step (ws st)) fuel
                       st (init_mon (ws st))) as (mu' & Hacc & Hpost).
  { unfold Inv, EInv, init_mon; simpl. repeat split; auto; lia. }
  exists mu'. split; [exact Hacc|].
  destruct ((run fuel st).1.1); exact Hpost.
Qed.
End RunAccepted.

(* ================================================================== *)
(** * What an accepted trace looks like *)

Section TraceFacts.
Context {T : DataTypes} {X : Externals}.
Variables (seed_steps max_steps step0 : Z).

Local Abbreviation mon_step := (mon_step seed_steps max_steps step0).
Local Abbreviation accepts := (accepts seed_steps max_steps step0).

Lemma count_cons p e (t : list Event) :
  count p (e :: t) = (if p e then 1 else 0) + count p t.
Proof. unfold count; simpl. destruct (p e); simpl; lia. Qed.

Lemma count_app p (t1 t2 : list Event) :
  count p (t1 ++ t2) = count p t1 + count p t2.
Proof.
  unfold count. rewrite List.filter_app, length_app. lia.
Qed.

Lemma count_nonneg p (t : list Event) : 0 <= count p t.
Proof. unfold count. lia. Qed.

(** One move of the monitor against the trace observations. *)
Lemma mon_step_obs mu e mu' :
  mon_step mu e mu' ->
  m_adds mu' = m_adds mu + (if is_add e then 1 else 0) /\
  m_buf mu' = apply_event (m_buf mu) e /\
  is_ctor e = false /\
  mon_obs mu' = current_obs_from (mon_obs mu) [e] /\
  mon_esteps mu' = episode_steps_from (mon_esteps mu) [e] /\
  m_adds mu' + pending_count mu'
    = m_adds mu + pending_count mu + (if is_rollout_step e then 1 else 0).
Proof.
  unfold mon_obs, mon_esteps, pending_count.
  destruct 1 as [mu e Hp Hn | mu o Hp | mu Hp Hs | mu o a o' r d Hp Hc
                | mu o a o' r d Hp Hc]; simpl; rewrite ?Hp; simpl.
  - destruct e as [| | [] | | | | [] |]; simpl in *;
      try contradiction; repeat split; lia.
  - repeat split; lia.
  - repeat split; lia.
  - repeat split; lia.
  - repeat split; lia.
Qed.

Lemma accepts_obs mu t mu' :
  accepts mu t mu' ->
  m_adds mu' = m_adds mu + count_adds t /\
  m_buf mu' = apply_adds (m_buf mu) t /\
  count_ctors t = 0 /\
  mon_obs mu' = current_obs_from (mon_obs mu) t /\
  mon_esteps mu' = episode_steps_from (mon_esteps mu) t /\
  m_adds mu' + pending_count mu'
    = m_adds mu + pending_count mu + count_rollout_steps t.
Proof.
  unfold count_adds, count_ctors, count_rollout_steps.
  induction 1 as [mu | mu e mu1 t mu2 Hs _ IH].
  - unfold count; simpl. repeat split; lia.
  - apply mon_step_obs in Hs as (H1 & H2 & H3 & H4 & H5 & H6).
    destruct IH as (I1 & I2 & I3 & I4 & I5 & I6).
    rewrite !count_cons, H3.
    unfold apply_adds, current_obs_from, episode_steps_from in *; simpl in *.
    rewrite I1, I2, I4, I5, H1, H2, H4, H5.
    repeat split; lia.
Qed.

(** Splitting an accepted trace at one of its calls. *)
Lemma accepts_at mu pre e post mu' :
  accepts mu (pre ++ e :: post) mu' ->
  exists mu1 mu2,
    accepts mu pre mu1 /\ mon_step mu1 e mu2 /\ accepts mu2 post mu'.
Proof.
  intros H. apply accepts_split in H as (mu1 & Hpre & Hrest).
  inversion Hrest as [|? ? mu2 ? ? Hs Hpost]; subst.
  exists mu1, mu2. auto.
Qed.

(** A step that awaits its insertion is the last call of the trace so
    far. *)
Lemma accepts_pending mu t mu' x :
  accepts mu t mu' ->
  m_pending mu' = Some x ->
  (t = [] /\ m_pending mu = Some x) \/
  exists t' s es, t = t' ++ [EvEnvStep Train s es x.1.1.1 x.1.1.2 x.1.2 x.2].
Proof.
  induction 1 as [mu | mu e mu1 t mu2 Hs Hacc IH]; intros Hx; [left; auto|].
  right. destruct (IH Hx) as [[-> Hp1] | (t' & s & es & ->)].
  - inversion Hs; subst; simpl in *; try congruence.
    injection Hp1 as <-. exists [], (step0 + m_adds mu), (m_esteps mu).
    reflexivity.
  - exists (e :: t'), s, es. reflexivity.
Qed.

(** When a step awaits its insertion, the next call is that insertion. *)
Lemma accepts_after_step mu a o' r d post mu' :
  m_pending mu = Some (a, o', r, d) ->
  accepts mu post mu' ->
  m_pending mu' = None ->
  exists o post',
    m_cur_obs mu = Some o /\
    post = EvAdd o a r o' (float_of_bool d)
             (if m_esteps mu + 1 =? max_steps then 0 else float_of_bool d)
           :: post'.
Proof.
  intros Hp Hacc Hend.
  inversion Hacc as [|? e mu1 t ? Hs Hrest]; subst; [congruence|].
  inversion Hs; subst; try congruence.
  match goal with H : m_pending mu = Some _ |- _ =>
    rewrite Hp in H; injection H as <- <- <- <- end.
  eauto.
Qed.
End TraceFacts.

(* ================================================================== *)
(** * The traces of [run] *)

Section RunTraces.
Context {T : DataTypes} {X : Externals}.

(** A rollout step sits at [self.step = ] initial step plus the
    insertions so far, in an episode that has taken [episode_step] rollout
    steps, and is followed at once by the insertion of its transition. *)
Lemma run_step_then_add fuel (st : St) pre s es a o' r d post :
  (run fuel st).2 = pre ++ EvEnvStep Train s es a o' r d :: post ->
  s = step (ws st) + count_adds pre /\
  es = episode_steps pre /\
  exists o post',
    current_obs pre = Some o /\
    post = EvAdd o a r o' (float_of_bool d)
             (if es + 1 =? _max_episode_steps (env (ws st))
              then 0 else float_of_bool d) :: post'.
Proof.
  intros Htr.
  destruct (run_accepted fuel st) as (mu' & Hacc & _ & Hend).
  rewrite Htr in Hacc.
  apply accepts_at in Hacc as (mu1 & mu2 & Hpre & Hs & Hpost).
  apply accepts_obs in Hpre as (Hadds & _ & _ & Hobs & Hes & _).
  inversion Hs as [? ? ? Hn | | | ? o ? ? ? ? Hp Hc |]; subst;
    [contradiction|].
  unfold mon_obs, mon_esteps in Hobs, Hes. rewrite Hp in Hobs, Hes.
  simpl in Hadds, Hobs, Hes.
  split; [lia|]. split; [exact Hes|].
  eapply accepts_after_step in Hpost as (o1 & post' & Ho1 & ->);
    [|reflexivity|exact Hend].
  simpl in Ho1. exists o1, post'. split; [|reflexivity].
  unfold current_obs. rewrite <- Hobs. exact Ho1.
Qed.

(** An insertion comes right after the rollout step it records. *)
Lemma run_add_after_step fuel (st : St) pre o a r o' dn dnm post :
  (run fuel st).2 = pre ++ EvAdd o a r o' dn dnm :: post ->
  exists pre' s es d, pre = pre' ++ [EvEnvStep Train s es a o' r d].
Proof.
  intros Htr.
  destruct (run_accepted fuel st) as (mu' & Hacc & _ & Hend).
  rewrite Htr in Hacc.
  apply accepts_at in Hacc as (mu1 & mu2 & Hpre & Hs & Hpost).
  inversion Hs as [? ? ? Hn | | | | ? ? ? ? ? d Hp Hc]; subst;
    [contradiction|].
  eapply accepts_pending in Hpre as [[_ Hp0] | (t' & s & es & ->)];
    [discriminate Hp0 | | exact Hp].
  simpl. eauto.
Qed.

(** An update is called with [self.step = ] initial step plus the
    insertions so far, and only once the warm-up is over. *)
Lemma run_update_step fuel (st : St) pre u post :
  (run fuel st).2 = pre ++ EvUpdate u :: post ->
  u = step (ws st) + count_adds pre /\
  num_seed_steps (cfg (ws st)) <= u.
Proof.
  intros Htr.
  destruct (run_accepted fuel st) as (mu' & Hacc & _ & Hend).
  rewrite Htr in Hacc.
  apply accepts_at in Hacc as (mu1 & mu2 & Hpre & Hs & Hpost).
  apply accepts_obs in Hpre as (Hadds & _).
  inversion Hs as [? ? ? Hn | | ? Hp Hseed | |]; subst; [contradiction|].
  simpl in Hadds. rewrite Hadds in *. split; [reflexivity | exact Hseed].
Qed.

(** C1 (time-limit truncation).  For every environment step taken by
    the training loop, the transition inserted for it carries
    [done = float(done)] and [done_no_max = 0] when the episode's step
    count reaches the maximum ([episode_step + 1 == max_episode_steps])
    and [done_no_max = done] otherwise; [episode_step] is the number of
    rollout steps taken since the loop last reset the environment. *)
Theorem done_no_max_time_limit fuel (st : St) pre s es a o' r d post :
  (run fuel st).2 = pre ++ EvEnvStep Train s es a o' r d :: post ->
  es = episode_steps pre /\
  exists o dn dnm post',
    post = EvAdd o a r o' dn dnm :: post' /\
    dn = float_of_bool d /\
    dnm = (if es + 1 =? _max_episode_steps (env (ws st)) then 0 else dn).
Proof.
  intros Htr.
  apply run_step_then_add in Htr as (_ & Hes & o & post' & _ & ->).
  split; [exact Hes|]. eauto 10.
Qed.

(** C4 (one insertion per step).  In the rollout loop every environment
    step is followed at once by one insertion whose six arguments are, in
    order, the observation the loop held, the action taken, the reward,
    the next observation, [done = float(done)] and the [done_no_max] of
    that step, which is [0] when [episode_step + 1] is the environment's
    [_max_episode_steps] and [done] otherwise, [episode_step] being the
    number of rollout steps since the last reset; every insertion is
    preceded by the step it records, with the values the step took and
    returned; so a finished or interrupted run has made as many
    insertions as rollout steps.  The insertions go to
    [self.replay_buffer]: the buffer of the workspace at the end is the
    one it had at the start with the recorded insertions applied in
    order. *)
Theorem one_insertion_per_step fuel (st : St) :
  let tr := (run fuel st).2 in
  (forall pre s es a o' r d post,
     tr = pre ++ EvEnvStep Train s es a o' r d :: post ->
     es = episode_steps pre /\
     exists o post',
       current_obs pre = Some o /\
       post = EvAdd o a r o' (float_of_bool d)
                (if es + 1 =? _max_episode_steps (env (ws st))
                 then 0 else float_of_bool d) :: post') /\
  (forall pre o a r o' dn dnm post,
     tr = pre ++ EvAdd o a r o' dn dnm :: post ->
     exists pre' s es d,
       pre = pre' ++ [EvEnvStep Train s es a o' r d] /\
       current_obs pre' = Some o /\
       dn = float_of_bool d /\
       dnm = (if es + 1 =? _max_episode_steps (env (ws st))
              then 0 else dn)) /\
  count_adds tr = count_rollout_steps tr /\
  replay_buffer (ws (run fuel st).1.2)
    = apply_adds (replay_buffer (ws st)) tr.
Proof.
  split; [|split; [|split]].
  - intros pre s es a o' r d post Htr.
    apply run_step_then_add in Htr as (_ & Hes & o & post' & Ho & ->).
    split; [exact Hes|]. eauto.
  - intros pre o a r o' dn dnm post Htr.
    destruct (run_add_after_step _ _ _ _ _ _ _ _ _ _ Htr)
      as (pre' & s & es & d & ->).
    exists pre', s, es, d. split; [reflexivity|].
    rewrite <- app_assoc in Htr. simpl in Htr.
    apply run_step_then_add in Htr as (_ & _ & o1 & post' & Ho & Hpost).
    injection Hpost as -> -> -> _. auto.
  - destruct (run_accepted fuel st) as (mu' & Hacc & _ & Hend).
    apply accepts_obs in Hacc as (H1 & _ & _ & _ & _ & H6).
    unfold pending_count in H6. rewrite Hend in H6. simpl in *. lia.
  - destruct (run_accepted fuel st) as (mu' & Hacc & Hbuf & _).
    apply accepts_obs in Hacc as (_ & H2 & _).
    rewrite Hbuf, H2. reflexivity.
Qed.

(** C7 (updates before the insertion).  Around the rollout step taken
    at [self.step = s] and the insertion that follows it, the learner's
    updates are ordered: those called before belong to steps up to [s],
    those called after belong to later steps.  So all updates of a step
    have completed before that step's transition is inserted, and none
    is interleaved with it. *)
Theorem updates_before_insertion fuel (st : St) pre s es a o' r d post :
  (run fuel st).2 = pre ++ EvEnvStep Train s es a o' r d :: post ->
  (exists o dn dnm post', post = EvAdd o a r o' dn dnm :: post') /\
  (forall u, In (EvUpdate u) pre -> u <= s) /\
  (forall u, In (EvUpdate u) post -> s < u).
Proof.
  intros Htr.
  pose proof (run_step_then_add _ _ _ _ _ _ _ _ _ _ Htr)
    as (Hs & _ & o & post' & _ & Hpost).
  split; [rewrite Hpost; eauto 10|]. split.
  - intros u Hin. apply in_split in Hin as (l1 & l2 & ->).
    rewrite <- app_assoc in Htr. simpl in Htr.
    apply run_update_step in Htr as (-> & _).
    unfold count_adds in *. rewrite count_app, count_cons in Hs. simpl in Hs.
    pose proof (count_nonneg is_add l2). lia.
  - intros u Hin. rewrite Hpost in Hin.
    destruct Hin as [Hin|Hin]; [discriminate Hin|].
    apply in_split in Hin as (l1 & l2 & Hl).
    rewrite Hpost, Hl in Htr.
    replace (pre ++ EvEnvStep Train s es a o' r d ::
             EvAdd o a r o' (float_of_bool d)
               (if es + 1 =? _max_episode_steps (env (ws st))
                then 0 else float_of_bool d) :: l1 ++ EvUpdate u :: l2)
      with ((pre ++ EvEnvStep Train s es a o' r d ::
             EvAdd o a r o' (float_of_bool d)
               (if es + 1 =? _max_episode_steps (env (ws st))
                then 0 else float_of_bool d) :: l1) ++ EvUpdate u :: l2)
      in Htr by (rewrite <- app_assoc; reflexivity).
    apply run_update_step in Htr as (-> & _).
    unfold count_adds in *. rewrite count_app, !count_cons. simpl.
    pose proof (count_nonneg is_add l1). lia.
Qed.

(** C8 (terminal on the last allowed step).  When the environment
    reports [done] on exactly the step that reaches the maximum episode
    step count, the transition is inserted with [done = 1] and
    [done_no_max = 0]: the genuine terminal is recorded as a
    truncation. *)
Theorem terminal_at_time_limit fuel (st : St) pre s es a o' r o a2 r2 o2 dn dnm
    post :
  (run fuel st).2
    = pre ++ EvEnvStep Train s es a o' r true :: EvAdd o a2 r2 o2 dn dnm :: post ->
  es + 1 = _max_episode_steps (env (ws st)) ->
  dn = 1 /\ dnm = 0.
Proof.
  intros Htr Hmax.
  apply run_step_then_add in Htr as (_ & _ & o1 & post' & _ & Hpost).
  injection Hpost as _ _ _ _ -> -> _.
  rewrite Hmax, Z.eqb_refl. split; reflexivity.
Qed.
End RunTraces.

(* ================================================================== *)
(** * [evaluate] *)

Section EvaluateFacts.
Context {T : DataTypes} {X : Externals}.

(** C10 (evaluation leaves the buffer alone).  For any execution of
    [evaluate], whether it returns, raises or is cut short, the workspace
    object and with it the replay buffer (contents, size, write index) is
    the same after the call as before, and the call makes no insertion. *)
Theorem evaluate_preserves_buffer fuel (st : St) :
  ws (evaluate fuel st).1.2 = ws st /\
  replay_buffer (ws (evaluate fuel st).1.2) = replay_buffer (ws st) /\
  count_adds (evaluate fuel st).2 = 0.
Proof.
  destruct (quiet_evaluate 0 0 0 fuel (ws st) (init_mon (ws st)) eq_refl
                           st (init_mon (ws st)) (conj eq_refl eq_refl))
    as (mu' & Hacc & Hpost).
  assert (Hsame : ws (evaluate fuel st).1.2 = ws st /\ mu' = init_mon (ws st))
    by (destruct ((evaluate fuel st).1.1); exact Hpost).
  destruct Hsame as [Hws ->].
  apply accepts_obs in Hacc as (Hadds & _).
  rewrite Hws. repeat split. lia.
Qed.
End EvaluateFacts.

(* ================================================================== *)
(** * [Workspace.__init__] and [main] *)

Section InitFacts.
Context {T : DataTypes} {X : Externals}.

Ltac step_call :=
  match goal with
  | |- context [match ?x with _ => _ end] =>
      match type of x with
      | (result _ * _)%type => destruct x as [[?|?] ?] eqn:?
      | result _ => destruct x as [?|?] eqn:?
      | bool => destruct x eqn:?
      end; simpl
  end.

(** The shape of an execution of [__init__]. *)
Lemma Workspace_init_spec (c : Cfg) (w : World) :
  let r := Workspace_init c w in
  Forall init_event r.2 /\
  count_ctors r.2 <= 1 /\
  forall wsn, r.1.1 = Returned wsn ->
    cfg wsn = c /\ step wsn = 0 /\
    ReplayBuffer (observation_space_shape (env wsn))
                 (action_space_shape (env wsn))
                 (replay_buffer_capacity c) (image_pad c) (device wsn)
      = Ok (replay_buffer wsn) /\
    (exists pre post,
       r.2 = pre ++ EvNewReplayBuffer
                      (ReplayBuffer_args c (env wsn) (device wsn)) :: post /\
       In (EvCall (SetSeedEverywhere (seed c))) pre /\
       count_ctors pre = 0 /\ count_ctors post = 0) /\
    (exists e_raw w1 w2,
       FrameStack (set_max_episode_steps e_raw 250) (frame_stack c) w1
         = (Ok (env wsn), w2)).
Proof.
  unfold Workspace_init, make_env, effect, bind, call, emit, ret, raise,
    of_result, py_assert; simpl.
  repeat step_call;
    (split; [repeat constructor|]);
    (split; [unfold count_ctors, count; simpl; lia|]);
    intros wsn Hret; try discriminate Hret.
  all: injection Hret as <-; simpl; repeat split; auto;
    [ eexists [_; _; _; _; _], [_]; split; [reflexivity|];
      split; [simpl; auto|]; split; reflexivity
    | eauto ].
Qed.

(** Calls of the rollout loop lie in the part of the trace of [main]
    that [run] produced. *)
Lemma after_init_events (t1 t2 pre : list Event) e post :
  Forall init_event t1 ->
  ~ init_event e ->
  t1 ++ t2 = pre ++ e :: post ->
  exists pre2, pre = t1 ++ pre2 /\ t2 = pre2 ++ e :: post.
Proof.
  intros Hall Hne. revert pre.
  induction Hall as [|x t1 Hx _ IH]; intros pre Heq; simpl in *.
  - exists pre. auto.
  - destruct pre as [|y pre]; simpl in Heq; injection Heq as -> Heq.
    + contradiction.
    + destruct (IH _ Heq) as (pre2 & -> & ->). exists pre2. auto.
Qed.

Lemma apply_adds_app rb (t1 t2 : list Event) :
  apply_adds rb (t1 ++ t2) = apply_adds (apply_adds rb t1) t2.
Proof. apply fold_left_app. Qed.

Lemma apply_adds_init rb (t : list Event) :
  Forall init_event t -> apply_adds rb t = rb.
Proof.
  intros Hall. revert rb.
  induction Hall as [|x t Hx _ IH]; intros rb; [reflexivity|].
  unfold apply_adds in *; simpl. rewrite IH.
  destruct x; simpl in *; try contradiction; reflexivity.
Qed.

(** [main] is [__init__] followed by [run] on the workspace it built. *)
Lemma main_cases fuel (c : Cfg) (w : World) :
  let i := Workspace_init c w in
  ((forall wsn, i.1.1 <> Returned wsn) /\
   (main fuel c w).2 = i.2 /\ (main fuel c w).1.1.2 = None) \/
  (exists wsn,
     i.1.1 = Returned wsn /\
     let r := run fuel {| ws := wsn; world := i.1.2 |} in
     (main fuel c w).2 = i.2 ++ r.2 /\
     (main fuel c w).1.1.2 = Some (ws r.1.2)).
Proof.
  unfold main. destruct (Workspace_init c w) as [[[wsn| |] w1] t1]; simpl.
  - right. exists wsn. split; [reflexivity|].
    destruct (run fuel _) as [[o st] t2]; simpl. auto.
  - left. repeat split; congruence.
  - left. repeat split; congruence.
Qed.

(** The rollout part of the trace of [main], around a call that is not
    one of [__init__]'s. *)
Lemma main_rollout_call fuel (c : Cfg) (w : World) pre e post :
  ~ init_event e ->
  (main fuel c w).2 = pre ++ e :: post ->
  exists wsn w1 pre2,
    (Workspace_init c w).1.1 = Returned wsn /\
    pre = (Workspace_init c w).2 ++ pre2 /\
    (run fuel {| ws := wsn; world := w1 |}).2 = pre2 ++ e :: post.
Proof.
  intros Hne Htr.
  destruct (Workspace_init_spec c w) as (Hall & _).
  destruct (main_cases fuel c w) as [(_ & Hm & _) | (wsn & Hi & Hm & _)];
    simpl in *; rewrite Hm in Htr.
  - exfalso. apply Hne.
    rewrite List.Forall_forall in Hall. apply Hall.
    rewrite Htr. apply in_elt.
  - destruct (after_init_events _ _ _ _ _ Hall Hne Htr) as (pre2 & -> & Hr).
    exists wsn, (Workspace_init c w).1.2, pre2. auto.
Qed.

(** C3 (warm-up before learning).  In every execution of the program,
    each call of the agent's [update] is preceded by at least
    [num_seed_steps] calls of [replay_buffer.add]; a raising [add] ends
    the run, so the insertions counted before an update were performed. *)
Theorem no_update_before_warmup fuel (c : Cfg) (w : World) pre u post :
  (main fuel c w).2 = pre ++ EvUpdate u :: post ->
  num_seed_steps c <= count_adds pre.
Proof.
  intros Htr.
  apply main_rollout_call in Htr as (wsn & w1 & pre2 & Hi & -> & Hr);
    [|simpl; tauto].
  destruct (Workspace_init_spec c w) as (_ & _ & Hok).
  destruct (Hok wsn Hi) as (Hc & Hs & _).
  apply run_update_step in Hr as (-> & Hseed). simpl in *.
  rewrite Hc, Hs in Hseed.
  unfold count_adds in *. rewrite count_app.
  pose proof (count_nonneg is_add (Workspace_init c w).2). lia.
Qed.
(** C2, as the code has it (construction of the buffer).  When
    [__init__] returns, it has called [ReplayBuffer] exactly once, with the
    five arguments (observation shape, action shape, capacity, pad,
    device) and nothing else: no seed and no random source is passed.
    Before that call, [__init__] has called
    [utils.set_seed_everywhere(cfg.seed)]. *)
Theorem buffer_construction_arguments (c : Cfg) (w : World) wsn :
  (Workspace_init c w).1.1 = Returned wsn ->
  (exists pre post,
     (Workspace_init c w).2
       = pre ++ EvNewReplayBuffer
                  [ArgShape (observation_space_shape (env wsn));
                   ArgShape (action_space_shape (env wsn));
                   ArgInt (replay_buffer_capacity c);
                   ArgInt (image_pad c);
                   ArgDevice (device wsn)] :: post /\
     In (EvCall (SetSeedEverywhere (seed c))) pre /\
     count_ctors pre = 0 /\ count_ctors post = 0) /\
  ReplayBuffer (observation_space_shape (env wsn))
               (action_space_shape (env wsn))
               (replay_buffer_capacity c) (image_pad c) (device wsn)
    = Ok (replay_buffer wsn).
Proof.
  intros Hret.
  destruct (Workspace_init_spec c w) as (_ & _ & Hok).
  destruct (Hok wsn Hret) as (_ & _ & Hrb & Htr & _).
  split; [exact Htr | exact Hrb].
Qed.

(** C9 (the step limit is the constant 250).  Provided the [FrameStack]
    wrapper hands on the [_max_episode_steps] of the environment it wraps,
    the environment of every constructed workspace has
    [_max_episode_steps = 250] whatever the configuration, and in every
    execution the insertion that follows a rollout step has
    [done_no_max = 0] exactly when [episode_step + 1 == 250]. *)
Theorem max_episode_steps_hard_coded fuel (c : Cfg) (w : World) :
  (forall e k w1 e' w2,
     FrameStack e k w1 = (Ok e', w2) ->
     _max_episode_steps e' = _max_episode_steps e) ->
  (forall wsn, (Workspace_init c w).1.1 = Returned wsn ->
               _max_episode_steps (env wsn) = 250) /\
  (forall pre s es a o' r d post,
     (main fuel c w).2 = pre ++ EvEnvStep Train s es a o' r d :: post ->
     exists o post',
       post = EvAdd o a r o' (float_of_bool d)
                (if es + 1 =? 250 then 0 else float_of_bool d) :: post').
Proof.
  intros HFS.
  assert (Hmax : forall wsn, (Workspace_init c w).1.1 = Returned wsn ->
                             _max_episode_steps (env wsn) = 250).
  { intros wsn Hret.
    destruct (Workspace_init_spec c w) as (_ & _ & Hok).
    destruct (Hok wsn Hret) as (_ & _ & _ & _ & (e_raw & w1 & w2 & Hfs)).
    apply HFS in Hfs. exact Hfs. }
  split; [exact Hmax|].
  intros pre s es a o' r d post Htr.
  apply main_rollout_call in Htr as (wsn & w1 & pre2 & Hi & -> & Hr);
    [|simpl; tauto].
  apply run_step_then_add in Hr as (_ & _ & o & post' & _ & ->).
  simpl. rewrite (Hmax wsn Hi). eauto.
Qed.

(** Replaying insertions keeps a well-formed buffer well-formed and a
    non-empty buffer non-empty. *)
Lemma apply_adds_good (Good : RB -> Prop) :
  (forall rb o a r o' d dnm rb',
     Good rb -> ReplayBuffer_add rb o a r o' d dnm = Ok rb' ->
     Good rb' /\ 0 < ReplayBuffer_len rb') ->
  forall t rb,
    Good rb ->
    Good (apply_adds rb t) /\
    (0 < ReplayBuffer_len rb -> 0 < ReplayBuffer_len (apply_adds rb t)).
Proof.
  intros Hadd t. induction t as [|e t IH]; intros rb Hg; [simpl; auto|].
  unfold apply_adds in *; simpl.
  assert (Hstep : Good (apply_event rb e) /\
                  (0 < ReplayBuffer_len rb ->
                   0 < ReplayBuffer_len (apply_event rb e))).
  { destruct e; simpl; auto.
    destruct (ReplayBuffer_add rb obs a reward_ next_obs done_ done_no_max_)
      as [rb'|err] eqn:Hins; auto.
    destruct (Hadd _ _ _ _ _ _ _ _ Hg Hins). auto. }
  destruct Hstep as [Hg' Hlen'].
  destruct (IH _ Hg') as [Hg'' Hlen'']. auto.
Qed.

(** C6 (one buffer, only inserted into).  In every execution of the
    program the [ReplayBuffer] constructor is called at most once, and
    exactly once if the workspace gets constructed; the buffer the
    workspace holds at the end is the constructed one with the recorded
    [add] calls applied to it in order, nothing else having touched it.
    Provided an insertion into a well-formed buffer leaves it well-formed
    and non-empty, a buffer that was non-empty at some point of the
    execution is non-empty at its end. *)
Theorem buffer_created_once_insert_only (Good : RB -> Prop) fuel (c : Cfg)
    (w : World) :
  (forall os acs cap p d rb, ReplayBuffer os acs cap p d = Ok rb -> Good rb) ->
  (forall rb o a r o' d dnm rb',
     Good rb -> ReplayBuffer_add rb o a r o' d dnm = Ok rb' ->
     Good rb' /\ 0 < ReplayBuffer_len rb') ->
  let m := main fuel c w in
  count_ctors m.2 <= 1 /\
  forall wsf, m.1.1.2 = Some wsf ->
    count_ctors m.2 = 1 /\
    exists e d rb0,
      ReplayBuffer (observation_space_shape e) (action_space_shape e)
                   (replay_buffer_capacity c) (image_pad c) d = Ok rb0 /\
      replay_buffer wsf = apply_adds rb0 m.2 /\
      forall pre post,
        m.2 = pre ++ post ->
        0 < ReplayBuffer_len (apply_adds rb0 pre) ->
        0 < ReplayBuffer_len (replay_buffer wsf).
Proof.
  intros Hnew Hadd m.
  destruct (Workspace_init_spec c w) as (Hall & Hle & Hok).
  destruct (main_cases fuel c w) as [(_ & Hm & Hnone) | (wsn & Hi & Hm & Hsome)];
    subst m; simpl in *.
  - rewrite Hm. split; [exact Hle|]. intros wsf Hf. congruence.
  - destruct (Hok wsn Hi) as (_ & _ & Hrb & (pre0 & post0 & Hsplit & _ & Hc1 & Hc2) & _).
    set (st := {| ws := wsn; world := (Workspace_init c w).1.2 |}) in *.
    destruct (run_accepted fuel st) as (mu' & Hacc & Hbuf & _).
    apply accepts_obs in Hacc as (_ & Hmbuf & Hnoctor & _).
    assert (Hone : count_ctors (main fuel c w).2 = 1).
    { rewrite Hm. unfold count_ctors in *.
      rewrite count_app, Hnoctor, Hsplit, count_app, count_cons, Hc1, Hc2.
      reflexivity. }
    split; [lia|].
    intros wsf Hf. rewrite Hsome in Hf. injection Hf as <-.
    split; [exact Hone|].
    exists (env wsn), (device wsn), (replay_buffer wsn).
    split; [exact Hrb|].
    assert (Hfinal : replay_buffer (ws (run fuel st).1.2)
                     = apply_adds (replay_buffer wsn) (main fuel c w).2).
    { rewrite Hm, apply_adds_app, (apply_adds_init _ _ Hall), Hbuf, Hmbuf.
      reflexivity. }
    split; [exact Hfinal|].
    intros pre post Hpp Hlen.
    rewrite Hfinal, Hpp, apply_adds_app.
    pose proof (Hnew _ _ _ _ _ _ Hrb) as Hg0.
    destruct (apply_adds_good Good Hadd pre _ Hg0) as [Hg1 _].
    destruct (apply_adds_good Good Hadd post _ Hg1) as [_ Hkeep].
    exact (Hkeep Hlen).
Qed.
End InitFacts.

(* ================================================================== *)
(** * Executions of the toy world

    The statements above, read on runs of the small concrete world. *)

Lemma capacity_invariant_witness :
  Buffer_construct (Obs := Z) (Action := Z) (Reward := Z)
                   [3; 2; 2] [1] 4 1 "cpu"%string 0 = Ok toy_buffer /\
  let ts := map (fun i => mkTransition i 0 1 (i + 1) 0 0) (seqZ 0 6) in
  let r := insert_all toy_shape_of_obs toy_shape_of_action toy_buffer ts in
  size r.1 = Z.min r.2 4 /\
  write_index r.1 = r.2 mod 4 /\
  (Forall (well_shaped toy_shape_of_obs toy_shape_of_action toy_buffer) ts ->
   r.2 = Z.of_nat (length ts)).
Proof.
  assert (H : Buffer_construct (Obs := Z) (Action := Z) (Reward := Z)
                [3; 2; 2] [1] 4 1 "cpu"%string 0 = Ok toy_buffer)
    by reflexivity.
  split; [exact H|].
  exact (capacity_invariant toy_shape_of_obs toy_shape_of_action
           _ _ _ _ _ _ _ _ H).
Defined.

Lemma done_no_max_time_limit_witness :
  toy_run_trace = firstn 19 toy_run_trace ++ EvEnvStep Train 1 1 0 6 1 true :: skipn 20 toy_run_trace /\
  1 = episode_steps (firstn 19 toy_run_trace) /\
  exists o dn dnm post',
    skipn 20 toy_run_trace = EvAdd o 0 1 6 dn dnm :: post' /\
    dn = float_of_bool true /\
    dnm = (if 1 + 1 =? _max_episode_steps (env (ws (toy_st 4 2 2)))
           then 0 else dn).
Proof.
  assert (H : toy_run_trace = firstn 19 toy_run_trace
                ++ EvEnvStep Train 1 1 0 6 1 true :: skipn 20 toy_run_trace)
    by (vm_compute; reflexivity).
  split; [exact H|].
  exact (done_no_max_time_limit (X := toy_X) 50 (toy_st 4 2 2)
           _ _ _ _ _ _ _ _ H).
Defined.

Lemma one_insertion_per_step_witness :
  toy_run_trace
    = firstn 19 toy_run_trace
        ++ EvEnvStep Train 1 1 0 6 1 true :: skipn 20 toy_run_trace /\
  toy_run_trace
    = firstn 20 toy_run_trace ++ EvAdd 5 0 1 6 1 0 :: skipn 21 toy_run_trace /\
  (1 = episode_steps (firstn 19 toy_run_trace) /\
   exists o post',
     current_obs (firstn 19 toy_run_trace) = Some o /\
     skipn 20 toy_run_trace
       = EvAdd o 0 1 6 (float_of_bool true)
           (if 1 + 1 =? _max_episode_steps (env (ws (toy_st 4 2 2)))
            then 0 else float_of_bool true) :: post') /\
  (exists pre' s es d,
     firstn 20 toy_run_trace = pre' ++ [EvEnvStep Train s es 0 6 1 d] /\
     current_obs pre' = Some 5 /\
     1 = float_of_bool d /\
     0 = (if es + 1 =? _max_episode_steps (env (ws (toy_st 4 2 2)))
          then 0 else 1)) /\
  count_adds toy_run_trace = count_rollout_steps toy_run_trace /\
  replay_buffer (ws (run (X := toy_X) 50 (toy_st 4 2 2)).1.2)
    = apply_adds (X := toy_X) (replay_buffer (ws (toy_st 4 2 2)))
                 toy_run_trace.
Proof.
  assert (H1 : toy_run_trace = firstn 19 toy_run_trace
                 ++ EvEnvStep Train 1 1 0 6 1 true :: skipn 20 toy_run_trace)
    by (vm_compute; reflexivity).
  assert (H2 : toy_run_trace = firstn 20 toy_run_trace
                 ++ EvAdd 5 0 1 6 1 0 :: skipn 21 toy_run_trace)
    by (vm_compute; reflexivity).
  destruct (one_insertion_per_step (X := toy_X) 50 (toy_st 4 2 2))
    as (Ha & Hb & Hc & Hd).
  split; [exact H1|]. split; [exact H2|].
  split; [exact (Ha _ _ _ _ _ _ _ _ H1)|].
  split; [exact (Hb _ _ _ _ _ _ _ _ H2)|].
  split; [exact Hc | exact Hd].
Defined.

Lemma updates_before_insertion_witness :
  toy_run_trace = firstn 28 toy_run_trace ++ EvEnvStep Train 2 0 9 10 1 false :: skipn 29 toy_run_trace /\
  (exists o dn dnm post', skipn 29 toy_run_trace = EvAdd o 9 1 10 dn dnm :: post') /\
  (forall u, In (EvUpdate u) (firstn 28 toy_run_trace) -> u <= 2) /\
  (forall u, In (EvUpdate u) (skipn 29 toy_run_trace) -> 2 < u).
Proof.
  assert (H : toy_run_trace = firstn 28 toy_run_trace
                ++ EvEnvStep Train 2 0 9 10 1 false :: skipn 29 toy_run_trace)
    by (vm_compute; reflexivity).
  split; [exact H|].
  exact (updates_before_insertion (X := toy_X) 50 (toy_st 4 2 2)
           _ _ _ _ _ _ _ _ H).
Defined.

Lemma terminal_at_time_limit_witness :
  toy_run_trace = firstn 19 toy_run_trace
             ++ EvEnvStep Train 1 1 0 6 1 true :: EvAdd 5 0 1 6 1 0
             :: skipn 21 toy_run_trace /\
  1 + 1 = _max_episode_steps (env (ws (toy_st 4 2 2))) /\
  (1 = 1 /\ 0 = 0).
Proof.
  assert (H : toy_run_trace = firstn 19 toy_run_trace
                ++ EvEnvStep Train 1 1 0 6 1 true :: EvAdd 5 0 1 6 1 0
                :: skipn 21 toy_run_trace)
    by (vm_compute; reflexivity).
  assert (Hmax : 1 + 1 = _max_episode_steps (env (ws (toy_st 4 2 2))))
    by reflexivity.
  split; [exact H|]. split; [exact Hmax|].
  exact (terminal_at_time_limit (X := toy_X) 50 (toy_st 4 2 2)
           _ _ _ _ _ _ _ _ _ _ _ _ _ H Hmax).
Defined.

Lemma no_update_before_warmup_witness :
  toy_main_trace = firstn 34 toy_main_trace ++ EvUpdate 2 :: skipn 35 toy_main_trace /\
  num_seed_steps (toy_cfg 4 2) <= count_adds (firstn 34 toy_main_trace).
Proof.
  assert (H : toy_main_trace = firstn 34 toy_main_trace ++ EvUpdate 2 :: skipn 35 toy_main_trace)
    by (vm_compute; reflexivity).
  split; [exact H|].
  exact (no_update_before_warmup (X := toy_X) 50 (toy_cfg 4 2) 0 _ _ _ H).
Defined.
Lemma toy_init_returns :
  (Workspace_init (X := toy_X) (toy_cfg 4 2) 0).1.1 = Returned toy_workspace.
Proof. vm_compute. reflexivity. Qed.

(** C2, as the spec words it, fails: in the toy world [__init__]
    returns, and no [ReplayBuffer] call of its trace carries the six-value
    tuple with the seed. *)
Lemma construction_tuple_has_no_seed :
  (Workspace_init (X := toy_X) (toy_cfg 4 2) 0).1.1 = Returned toy_workspace /\
  ~ In (EvNewReplayBuffer
          (spec_construction_tuple (toy_cfg 4 2) (env toy_workspace)
                                   (device toy_workspace)))
       (Workspace_init (X := toy_X) (toy_cfg 4 2) 0).2.
Proof.
  split; [exact toy_init_returns|].
  vm_compute. intros H.
  repeat (destruct H as [H|H]; [discriminate H|]). exact H.
Qed.

Lemma buffer_construction_arguments_witness :
  (Workspace_init (X := toy_X) (toy_cfg 4 2) 0).1.1 = Returned toy_workspace /\
  (exists pre post,
     (Workspace_init (X := toy_X) (toy_cfg 4 2) 0).2
       = pre ++ EvNewReplayBuffer
                  [ArgShape (observation_space_shape (env toy_workspace));
                   ArgShape (action_space_shape (env toy_workspace));
                   ArgInt (replay_buffer_capacity (toy_cfg 4 2));
                   ArgInt (image_pad (toy_cfg 4 2));
                   ArgDevice (device toy_workspace)] :: post /\
     In (EvCall (SetSeedEverywhere (seed (toy_cfg 4 2)))) pre /\
     count_ctors pre = 0 /\ count_ctors post = 0) /\
  ReplayBuffer (Externals := toy_X)
               (observation_space_shape (env toy_workspace))
               (action_space_shape (env toy_workspace))
               (replay_buffer_capacity (toy_cfg 4 2))
               (image_pad (toy_cfg 4 2)) (device toy_workspace)
    = Ok (replay_buffer toy_workspace).
Proof.
  assert (H : (Workspace_init (X := toy_X) (toy_cfg 4 2) 0).1.1
              = Returned toy_workspace) by (vm_compute; reflexivity).
  split; [exact H|].
  exact (buffer_construction_arguments (X := toy_X) (toy_cfg 4 2) 0
           toy_workspace H).
Defined.

Lemma toy_FrameStack_forwards (e : Env) (k : Z) (w1 : Z) (e' : Env) (w2 : Z) :
  FrameStack (Externals := toy_X) e k w1 = (Ok e', w2) ->
  _max_episode_steps e' = _max_episode_steps e.
Proof. intros H. injection H as <- _. reflexivity. Defined.

Lemma max_episode_steps_hard_coded_witness :
  (forall e k w1 e' w2,
     FrameStack (Externals := toy_X) e k w1 = (Ok e', w2) ->
     _max_episode_steps e' = _max_episode_steps e) /\
  (forall wsn,
     (Workspace_init (X := toy_X) (toy_cfg 4 2) 0).1.1 = Returned wsn ->
     _max_episode_steps (env wsn) = 250) /\
  (forall pre s es a o' r d post,
     toy_main_trace = pre ++ EvEnvStep Train s es a o' r d :: post ->
     exists o post',
       post = EvAdd o a r o' (float_of_bool d)
                (if es + 1 =? 250 then 0 else float_of_bool d) :: post').
Proof.
  split; [exact toy_FrameStack_forwards|].
  exact (max_episode_steps_hard_coded (X := toy_X) 50 (toy_cfg 4 2) 0
           toy_FrameStack_forwards).
Defined.

Lemma toy_new_good os acs cap p (d : string) (rb : Buffer Z Z Z string) :
  ReplayBuffer (Externals := toy_X) os acs cap p d = Ok rb -> toy_good rb.
Proof.
  intros H. apply Buffer_construct_fresh in H as (Hpos & Hc & Hs & _).
  unfold toy_good. rewrite Hc, Hs. lia.
Defined.

Lemma toy_add_good (rb : Buffer Z Z Z string) (o a r o' d dnm : Z)
    (rb' : Buffer Z Z Z string) :
  toy_good rb ->
  ReplayBuffer_add (Externals := toy_X) rb o a r o' d dnm = Ok rb' ->
  toy_good rb' /\ 0 < ReplayBuffer_len (Externals := toy_X) rb'.
Proof.
  intros [Hcap Hsz] H.
  change (insert_transition toy_shape_of_obs toy_shape_of_action rb
            (mkTransition o a r o' d dnm) = Ok rb') in H.
  apply insert_transition_ok in H as (Hc & _ & _ & Hs & _).
  unfold toy_good. simpl. rewrite Hc, Hs. lia.
Defined.

Lemma buffer_created_once_insert_only_witness :
  let m := main (X := toy_X) 50 (toy_cfg 4 2) 0 in
  count_ctors m.2 <= 1 /\
  forall wsf, m.1.1.2 = Some wsf ->
    count_ctors m.2 = 1 /\
    exists e d rb0,
      ReplayBuffer (Externals := toy_X)
                   (observation_space_shape e) (action_space_shape e)
                   (replay_buffer_capacity (toy_cfg 4 2))
                   (image_pad (toy_cfg 4 2)) d = Ok rb0 /\
      replay_buffer wsf = apply_adds (X := toy_X) rb0 m.2 /\
      forall pre post,
        m.2 = pre ++ post ->
        0 < ReplayBuffer_len (Externals := toy_X) (apply_adds (X := toy_X) rb0 pre) ->
        0 < ReplayBuffer_len (Externals := toy_X) (replay_buffer wsf).
Proof.
  exact (buffer_created_once_insert_only (X := toy_X) toy_good 50
           (toy_cfg 4 2) 0 toy_new_good toy_add_good).
Defined.

(** [evaluate] on the toy state: three steps, the workspace untouched. *)
Example toy_evaluate :
  (evaluate (X := toy_X) 50 (toy_st 4 2 2)).1.1 = Returned tt /\
  ws (evaluate (X := toy_X) 50 (toy_st 4 2 2)).1.2 = ws (toy_st 4 2 2) /\
  length (evaluate (X := toy_X) 50 (toy_st 4 2 2)).2 = 14%nat.
Proof. vm_compute. repeat split. Qed.

(** The toy program runs to completion and ends with a full buffer. *)
Example toy_main_final :
  (main (X := toy_X) 50 (toy_cfg 4 2) 0).1.1.1 = Returned tt /\
  exists wsf, (main (X := toy_X) 50 (toy_cfg 4 2) 0).1.1.2 = Some wsf /\
              step wsf = 4 /\ size (replay_buffer wsf) = 4 /\
              write_index (replay_buffer wsf) = 0.
Proof. vm_compute. split; [reflexivity|]. eexists. repeat split. Qed.

(* ================================================================== *)
(** * Rules for specifications by outcome, workspace and trace *)

Section HoareRules.
Context {T : DataTypes} {X : Externals}.

Lemma hoare_conseq {A} w0 (m : M St A) (Q Q' : outcome A -> _) :
  hoare w0 m Q' ->
  (forall o w t, Q' o w t -> Q o w t) ->
  hoare w0 m Q.
Proof. intros H HQ st Hst. apply HQ, H, Hst. Qed.

Lemma hoare_ret {A} w0 (a : A) (Q : outcome A -> _) :
  Q (Returned a) w0 [] -> hoare w0 (ret a) Q.
Proof. intros H st <-. exact H. Qed.

Lemma hoare_raise {A} w0 e (Q : outcome A -> _) :
  Q (Raised e) w0 [] -> hoare w0 (raise e) Q.
Proof. intros H st <-. exact H. Qed.

Lemma hoare_out_of_fuel {A} w0 (Q : outcome A -> _) :
  Q OutOfFuel w0 [] -> hoare w0 out_of_fuel Q.
Proof. intros H st <-. exact H. Qed.

(** Sequencing: the continuation starts from the workspace the first part
    ended in, and its trace follows that of the first part. *)
Lemma hoare_bind {A B} w0 (m : M St A) (f : A -> M St B)
    (Q1 : outcome A -> _) (Q : outcome B -> _) :
  hoare w0 m Q1 ->
  (forall e w t, Q1 (Raised e) w t -> Q (Raised e) w t) ->
  (forall w t, Q1 OutOfFuel w t -> Q OutOfFuel w t) ->
  (forall a w1 t1, Q1 (Returned a) w1 t1 ->
     hoare w1 (f a) (fun o w t2 => Q o w (t1 ++ t2))) ->
  hoare w0 (bind m f) Q.
Proof.
  intros Hm Hr Ho Hf st Hst. specialize (Hm st Hst). unfold bind.
  destruct (m st) as [[[a|e|] s1] t1]; simpl in *.
  - specialize (Hf a _ _ Hm s1 eq_refl).
    destruct (f a s1) as [[o2 s2] t2]; simpl in *. exact Hf.
  - apply Hr, Hm.
  - apply Ho, Hm.
Qed.

(** Reading an attribute of [self]. *)
Lemma hoare_self {A B} w0 (f : Workspace -> A) (k : A -> M St B) Q :
  hoare w0 (k (f w0)) Q -> hoare w0 (bind (self f) k) Q.
Proof.
  intros Hk st Hst. specialize (Hk st Hst). subst w0.
  unfold bind, self, gets. simpl.
  destruct (k (f (ws st)) st) as [[o2 s2] t2]; simpl in *. exact Hk.
Qed.

(** A call of a collaborator that leaves no mark in the trace. *)
Lemma hoare_call {A B} w0 (f : World -> result A * World) (k : A -> M St B) Q :
  (forall a, hoare w0 (k a) Q) ->
  (forall e, Q (Raised e) w0 []) ->
  hoare w0 (bind (in_world (call f)) k) Q.
Proof.
  intros Hk Hr st Hst. unfold bind, in_world, call.
  destruct (f (world st)) as [[a|e] w']; simpl.
  - specialize (Hk a {| ws := ws st; world := w' |} Hst).
    destruct (k a _) as [[o2 s2] t2]; simpl in *. exact Hk.
  - rewrite Hst. apply Hr.
Qed.

(** An effect-only call: it is recorded, then made. *)
Lemma hoare_effect {B} w0 (c : Call) (k : unit -> M St B) Q :
  hoare w0 (k tt) (fun o w t => Q o w (EvCall c :: t)) ->
  (forall e, Q (Raised e) w0 [EvCall c]) ->
  hoare w0 (bind (in_world (effect c)) k) Q.
Proof.
  intros Hk Hr st Hst. unfold bind, in_world, effect, bind, emit, call.
  destruct (ext_effect c (world st)) as [[[]|e] w']; simpl.
  - specialize (Hk {| ws := ws st; world := w' |} Hst).
    destruct (k tt _) as [[o2 s2] t2]; simpl in *. exact Hk.
  - rewrite Hst. apply Hr.
Qed.

Lemma hoare_effect_last w0 (c : Call) (Q : outcome unit -> _) :
  Q (Returned tt) w0 [EvCall c] ->
  (forall e, Q (Raised e) w0 [EvCall c]) ->
  hoare w0 (in_world (effect c)) Q.
Proof.
  intros Hk Hr st Hst. unfold bind, in_world, effect, bind, emit, call.
  destruct (ext_effect c (world st)) as [[[]|e] w']; simpl;
    rewrite Hst; auto.
Qed.

Lemma hoare_reset {B} w0 (site : Site) (k : Obs -> M St B) Q :
  (forall o, hoare w0 (k o) (fun oc w t => Q oc w (EvReset site o :: t))) ->
  (forall e, Q (Raised e) w0 []) ->
  hoare w0 (bind (do_reset site) k) Q.
Proof.
  intros Hk Hr st Hst. unfold bind, do_reset, in_world, bind, emit, call, ret.
  destruct (env_reset (world st)) as [[o|e] w']; simpl.
  - specialize (Hk o {| ws := ws st; world := w' |} Hst).
    destruct (k o _) as [[o2 s2] t2]; simpl in *. exact Hk.
  - rewrite Hst. apply Hr.
Qed.

Lemma hoare_act {B} w0 (obs : Obs) (sample : bool) (k : Action -> M St B) Q :
  (forall a, hoare w0 (k a) (fun oc w t => Q oc w (EvAct obs sample a :: t))) ->
  (forall e, Q (Raised e) w0 []) ->
  hoare w0 (bind (do_act obs sample) k) Q.
Proof.
  intros Hk Hr st Hst. unfold bind, do_act, in_world, bind, emit, call, ret.
  destruct (agent_act obs sample (world st)) as [[a|e] w']; simpl.
  - specialize (Hk a {| ws := ws st; world := w' |} Hst).
    destruct (k a _) as [[o2 s2] t2]; simpl in *. exact Hk.
  - rewrite Hst. apply Hr.
Qed.

Lemma hoare_sample {B} w0 (k : Action -> M St B) Q :
  (forall a, hoare w0 (k a) (fun oc w t => Q oc w (EvSampleAction a :: t))) ->
  (forall e, Q (Raised e) w0 []) ->
  hoare w0 (bind (in_world (a <- call action_space_sample ;;
                            emit (EvSampleAction a) ;; ret a)) k) Q.
Proof.
  intros Hk Hr st Hst. unfold bind, in_world, bind, emit, call, ret.
  destruct (action_space_sample (world st)) as [[a|e] w']; simpl.
  - specialize (Hk a {| ws := ws st; world := w' |} Hst).
    destruct (k a _) as [[o2 s2] t2]; simpl in *. exact Hk.
  - rewrite Hst. apply Hr.
Qed.

Lemma hoare_step {B} w0 (site : Site) (es : Z) (a : Action)
    (k : Obs * Reward * bool -> M St B) Q :
  (forall o' r d,
     hoare w0 (k (o', r, d))
           (fun oc w t => Q oc w (EvEnvStep site (step w0) es a o' r d :: t))) ->
  (forall e, Q (Raised e) w0 []) ->
  hoare w0 (bind (do_step site es a) k) Q.
Proof.
  intros Hk Hr st Hst. subst w0.
  unfold bind, do_step, self, gets, in_world, bind, emit, call, ret; simpl.
  destruct (env_step a (world st)) as [[[[o' r] d]|e] w']; simpl.
  - specialize (Hk o' r d {| ws := ws st; world := w' |} eq_refl).
    destruct (k _ _) as [[o2 s2] t2]; simpl in *. exact Hk.
  - apply Hr.
Qed.

Lemma hoare_update {B} w0 (k : unit -> M St B) Q :
  hoare w0 (k tt) (fun o w t => Q o w (EvUpdate (step w0) :: t)) ->
  (forall e, Q (Raised e) w0 [EvUpdate (step w0)]) ->
  hoare w0 (bind do_update k) Q.
Proof.
  intros Hk Hr st Hst. subst w0.
  unfold bind, do_update, self, gets, in_world, bind, emit, call; simpl.
  destruct (agent_update _ _ (world st)) as [[[]|e] w']; simpl.
  - specialize (Hk {| ws := ws st; world := w' |} eq_refl).
    destruct (k _ _) as [[o2 s2] t2]; simpl in *. exact Hk.
  - apply Hr.
Qed.

(** The insertion: recorded, then made; the buffer attribute changes only
    when [add] returns. *)
Lemma hoare_add {B} w0 (o : Obs) (a : Action) (r : Reward) (o' : Obs)
    (d dnm : Z) (k : unit -> M St B) Q :
  (forall rb',
     ReplayBuffer_add (replay_buffer w0) o a r o' d dnm = Ok rb' ->
     hoare {| work_dir := work_dir w0; cfg := cfg w0; device := device w0;
              env := env w0; replay_buffer := rb'; step := step w0 |}
           (k tt) (fun oc w t => Q oc w (EvAdd o a r o' d dnm :: t))) ->
  (forall e, Q (Raised e) w0 [EvAdd o a r o' d dnm]) ->
  hoare w0 (bind (replay_buffer_add o a r o' d dnm) k) Q.
Proof.
  intros Hk Hr st Hst. subst w0.
  unfold bind, replay_buffer_add, self, gets, of_result, modify, bind, emit,
    ret, raise; simpl.
  destruct (ReplayBuffer_add (replay_buffer (ws st)) o a r o' d dnm)
    as [rb'|e] eqn:Hadd; simpl.
  - specialize (Hk rb' eq_refl
      {| ws := {| work_dir := work_dir (ws st); cfg := cfg (ws st);
                  device := device (ws st); env := env (ws st);
                  replay_buffer := rb'; step := step (ws st) |};
         world := world st |} eq_refl).
    destruct (k tt _) as [[o2 s2] t2]; simpl in *. exact Hk.
  - apply Hr.
Qed.

Lemma hoare_incr_step {B} w0 (k : unit -> M St B) Q :
  hoare {| work_dir := work_dir w0; cfg := cfg w0; device := device w0;
           env := env w0; replay_buffer := replay_buffer w0;
           step := step w0 + 1 |} (k tt) Q ->
  hoare w0 (bind incr_step k) Q.
Proof.
  intros Hk st Hst. subst w0. unfold bind, incr_step, modify; simpl.
  specialize (Hk
    {| ws := {| work_dir := work_dir (ws st); cfg := cfg (ws st);
                device := device (ws st); env := env (ws st);
                replay_buffer := replay_buffer (ws st);
                step := step (ws st) + 1 |};
       world := world st |} eq_refl).
  destruct (k tt _) as [[o2 s2] t2]; simpl in *. exact Hk.
Qed.
End HoareRules.

(* ================================================================== *)
(** * More about [evaluate] *)

Section EvaluateMore.
Context {T : DataTypes} {X : Externals}.

Lemma hoare_py_div {B} w0 (r : Reward) (n : Z) (k : Reward -> M St B) Q :
  (n <> 0 -> hoare w0 (k (reward_div r n)) Q) ->
  (n = 0 -> Q (Raised ZeroDivisionError) w0 []) ->
  hoare w0 (bind (py_div r n) k) Q.
Proof.
  intros Hk Hr st Hst. unfold bind, py_div.
  destruct (n =? 0) eqn:Hn; simpl.
  - rewrite Hst. apply Hr. apply Z.eqb_eq, Hn.
  - apply Z.eqb_neq in Hn. specialize (Hk Hn st Hst).
    destruct (k _ st) as [[o2 s2] t2]; simpl in *. exact Hk.
Qed.

Lemma count_nil (p : Event -> bool) : count p [] = 0.
Proof. reflexivity. Qed.

Lemma video_inits_app (t1 t2 : list Event) :
  video_inits (t1 ++ t2) = video_inits t1 ++ video_inits t2.
Proof. apply flat_map_app. Qed.

Lemma eval_rewards_app (t1 t2 : list Event) acc :
  eval_rewards (t1 ++ t2) acc = eval_rewards t2 (eval_rewards t1 acc).
Proof. apply fold_left_app. Qed.

Lemma hoare_evaluate_episode fuel : forall w0 obs done er es,
  hoare w0 (evaluate_episode fuel obs done er es) (EpisodeQ w0 done er).
Proof.
  induction fuel as [|fuel IH]; intros w0 obs done er es; simpl;
    (destruct done;
     [apply hoare_ret; unfold EpisodeQ, count; simpl;
      repeat split; auto; lia|]).
  - apply hoare_out_of_fuel. unfold EpisodeQ, count; simpl.
    repeat split; auto; lia.
  - apply hoare_act.
    2:{ intros e. unfold EpisodeQ, count; simpl. repeat split; auto; lia. }
    intros a. apply hoare_step.
    2:{ intros e. unfold EpisodeQ, count; simpl.
        repeat split; auto; try lia. repeat constructor. }
    intros o' r d. apply hoare_effect.
    2:{ intros e. unfold EpisodeQ. rewrite !count_cons. unfold count; simpl.
        repeat split; auto; try (destruct d; lia). repeat constructor. }
    eapply hoare_conseq; [apply IH|].
    intros o w t (Hw & Hall & Hr & Hs & Hv & Hd & Hret).
    unfold EpisodeQ. rewrite !count_cons. simpl.
    split; [exact Hw|]. split; [repeat constructor; exact Hall|].
    split; [lia|]. split; [lia|]. split; [exact Hv|].
    split; [destruct d; lia|].
    destruct o as [er'| |]; auto.
    destruct Hret as [Hdone Hrew].
    split; [destruct d; lia|].
    intros avg. unfold eval_rewards in *; simpl. apply Hrew.
Qed.

Lemma hoare_evaluate_episodes fuel episodes : forall w0 avg,
  hoare w0 (evaluate_episodes fuel episodes avg) (EpisodesQ w0 episodes avg).
Proof.
  induction episodes as [|episode rest IH]; intros w0 avg; simpl.
  - apply hoare_ret. unfold EpisodesQ, count; simpl.
    repeat split; auto; lia.
  - apply hoare_reset.
    2:{ intros e. unfold EpisodesQ, count; simpl.
        repeat split; auto; lia. }
    intros obs. apply hoare_effect.
    2:{ intros e. unfold EpisodesQ, count; simpl.
        repeat split; auto; try lia. repeat constructor. }
    eapply hoare_bind; [apply hoare_evaluate_episode | | |].
    + intros e w t (Hw & Hall & Hr & Hs & Hv & Hd & _).
      unfold EpisodesQ. rewrite !count_cons. simpl length.
      split; [exact Hw|]. split; [repeat constructor; exact Hall|].
      simpl. repeat split; auto; lia.
    + intros w t (Hw & Hall & Hr & Hs & Hv & Hd & _).
      unfold EpisodesQ. rewrite !count_cons. simpl length.
      split; [exact Hw|]. split; [repeat constructor; exact Hall|].
      simpl. repeat split; auto; lia.
    + intros er' w1 t1 (-> & Hall1 & Hr1 & Hs1 & Hv1 & Hd1 & Hdone1 & Hrew1).
      apply hoare_self. apply hoare_effect.
      2:{ intros e. unfold EpisodesQ.
          rewrite !count_cons, !count_app, !count_cons, !count_nil.
          simpl length. split; [reflexivity|].
          split; [repeat constructor; apply Forall_app; split;
                  [exact Hall1 | repeat constructor]|].
          simpl. repeat split; auto; lia. }
      eapply hoare_conseq; [apply IH|].
      intros o w t (Hw & Hall & Hsd & Hdr & Hrn & Hret).
      unfold EpisodesQ. rewrite !count_cons, !count_app, !count_cons.
      simpl length.
      split; [exact Hw|].
      split; [repeat constructor; apply Forall_app; split;
              [exact Hall1 | repeat constructor; exact Hall]|].
      simpl. split; [lia|]. split; [lia|]. split; [lia|].
      destruct o as [avg'| |]; auto.
      destruct Hret as (Hsave & Hinits & Hrew).
      split; [lia|]. split.
      * rewrite video_inits_app, Hv1. simpl. rewrite Hinits. reflexivity.
      * intros er. unfold eval_rewards in *. simpl.
        rewrite fold_left_app, Hrew1. simpl. apply Hrew.
Qed.

Ltac abort_case :=
  repeat match goal with |- _ /\ _ => split; [solve [auto | lia]|] end;
  let Hd := fresh in intros Hd; discriminate Hd.

Lemma hoare_evaluate fuel w0 :
  hoare w0 (evaluate fuel)
    (fun o w t =>
       let n := num_eval_episodes (cfg w0) in
       w = w0 /\ Forall eval_event t /\
       count is_video_save t <= count is_eval_done t /\
       count is_eval_done t <= count is_eval_reset t /\
       count is_eval_reset t <= Z.max 0 n /\
       (o = Returned tt ->
        n <> 0 /\
        count is_video_save t = Z.max 0 n /\
        video_inits t = map (fun episode => episode =? 0) (range n) /\
        exists pre,
          t = pre ++ [EvCall (LoggerLog "eval/episode_reward"
                        (VReward (reward_div
                           (eval_rewards pre (reward_zero, reward_zero)).1 n))
                        (step w0));
                      EvCall (LoggerDump (step w0) None)])).
Proof.
  unfold evaluate. apply hoare_self.
  assert (Hlen : Z.of_nat (length (range (num_eval_episodes (cfg w0))))
                 = Z.max 0 (num_eval_episodes (cfg w0))).
  { unfold range. rewrite length_seqZ. lia. }
  eapply hoare_bind; [apply hoare_evaluate_episodes | | |].
  - intros e w t (Hw & Hall & Hsd & Hdr & Hrn & _). simpl.
    rewrite Hlen in Hrn. abort_case.
  - intros w t (Hw & Hall & Hsd & Hdr & Hrn & _). simpl.
    rewrite Hlen in Hrn. abort_case.
  - intros avg w1 t1 (-> & Hall & Hsd & Hdr & Hrn & Hsave & Hinits & Hrew).
    rewrite Hlen in Hrn, Hsave.
    apply hoare_py_div.
    2:{ intros Hn. simpl. rewrite app_nil_r.
        abort_case. }
    intros Hn. apply hoare_self. unfold logger_log.
    assert (Hcalls : forall l, Forall is_call l -> Forall eval_event (t1 ++ l)).
    { intros l Hl. apply Forall_app. split; [exact Hall|].
      eapply Forall_impl; [exact Hl|]. intros [] Hc; simpl in *; tauto. }
    assert (Hcount : forall p l,
              (forall e, In e l -> p e = false) -> count p (t1 ++ l) = count p t1).
    { intros p l Hp. rewrite count_app.
      assert (count p l = 0); [|lia].
      induction l as [|e l IHl]; [reflexivity|].
      rewrite count_cons, (Hp e (or_introl eq_refl)), IHl; [reflexivity|].
      intros e' He'. apply Hp. right. exact He'. }
    apply hoare_effect.
    2:{ intros e. simpl.
        rewrite !Hcount by (intros e' [<-|[]]; reflexivity).
        split; [reflexivity|]. split; [apply Hcalls; repeat constructor|].
        abort_case. }
    apply hoare_self. apply hoare_effect_last.
    2:{ intros e. simpl.
        rewrite !Hcount by (intros e' [<-|[<-|[]]]; reflexivity).
        split; [reflexivity|]. split; [apply Hcalls; repeat constructor|].
        abort_case. }
    simpl.
    rewrite !Hcount by (intros e' [<-|[<-|[]]]; reflexivity).
    split; [reflexivity|]. split; [apply Hcalls; repeat constructor|].
    split; [lia|]. split; [lia|]. split; [lia|].
    intros _. split; [exact Hn|]. split; [lia|]. split.
    + rewrite video_inits_app, Hinits. simpl. apply app_nil_r.
    + exists t1. rewrite (Hrew reward_zero). reflexivity.
Qed.

(** [evaluate] only makes effect-only calls and the resets, steps and
    actions of its own episode loop, the actions always with
    [sample=False]: it never samples an action at random, never updates
    the agent, never steps or resets on behalf of the rollout loop, and
    never constructs or fills a buffer. *)
Theorem evaluate_only_eval_calls fuel (st : St) :
  Forall eval_event (evaluate fuel st).2.
Proof.
  destruct (hoare_evaluate fuel (ws st) st eq_refl) as (_ & H & _). exact H.
Qed.

(** The episodes of [evaluate].  In any execution the videos saved are
    at most the episodes that ended, which are at most the episodes
    started, which are at most [num_eval_episodes].  When [evaluate]
    returns, [num_eval_episodes] is not zero, each of the
    [max(0, num_eval_episodes)] episodes was started by a reset, ran until
    the environment reported [done] and had its video saved, and the video
    recorder was enabled for the first episode only. *)
Theorem evaluate_episode_accounting fuel (st : St) :
  let n := num_eval_episodes (cfg (ws st)) in
  let t := (evaluate fuel st).2 in
  count is_video_save t <= count is_eval_done t /\
  count is_eval_done t <= count is_eval_reset t /\
  count is_eval_reset t <= Z.max 0 n /\
  ((evaluate fuel st).1.1 = Returned tt ->
   n <> 0 /\
   count is_eval_reset t = Z.max 0 n /\
   count is_eval_done t = Z.max 0 n /\
   count is_video_save t = Z.max 0 n /\
   video_inits t = map (fun episode => episode =? 0) (range n)).
Proof.
  destruct (hoare_evaluate fuel (ws st) st eq_refl)
    as (_ & _ & H1 & H2 & H3 & Hret).
  simpl. split; [exact H1|]. split; [exact H2|]. split; [exact H3|].
  intros Ho. destruct (Hret Ho) as (Hn & Hs & Hv & _).
  split; [exact Hn|]. split; [lia|]. split; [lia|].
  split; [exact Hs | exact Hv].
Qed.

(** When [evaluate] returns, its last two calls are the log of
    ["eval/episode_reward"] and the dump, both at [self.step]; the value
    logged is the sum over the episodes of the episode's summed rewards,
    divided by [num_eval_episodes]. *)
Theorem evaluate_logs_average fuel (st : St) :
  (evaluate fuel st).1.1 = Returned tt ->
  exists pre,
    (evaluate fuel st).2
      = pre ++ [EvCall (LoggerLog "eval/episode_reward"
                  (VReward (reward_div
                     (eval_rewards pre (reward_zero, reward_zero)).1
                     (num_eval_episodes (cfg (ws st)))))
                  (step (ws st)));
                EvCall (LoggerDump (step (ws st)) None)].
Proof.
  intros Ho.
  destruct (hoare_evaluate fuel (ws st) st eq_refl)
    as (_ & _ & _ & _ & _ & Hret).
  destruct (Hret Ho) as (_ & _ & _ & Hlog). exact Hlog.
Qed.

(** With [num_eval_episodes = 0], [evaluate] raises [ZeroDivisionError]
    at once: no episode is run, nothing is logged, and the state is as it
    was. *)
Theorem evaluate_zero_episodes fuel (st : St) :
  num_eval_episodes (cfg (ws st)) = 0 ->
  evaluate fuel st = (Raised ZeroDivisionError, st, []).
Proof.
  intros Hn. unfold evaluate, bind, self, gets, py_div, range; simpl.
  rewrite Hn. reflexivity.
Qed.
End EvaluateMore.

(* ================================================================== *)
(** * More about the rollout loop *)

Section RunMore.
Context {T : DataTypes} {X : Externals}.

Lemma hoare_ext {A} w0 (m m' : M St A) Q :
  (forall st, m st = m' st) -> hoare w0 m' Q -> hoare w0 m Q.
Proof. intros Heq H st Hst. rewrite Heq. apply H, Hst. Qed.

Lemma bind_ret_l {A B} (a : A) (f : A -> M St B) st :
  bind (ret a) f st = f a st.
Proof. unfold bind, ret. destruct (f a st) as [[o s] t]. reflexivity. Qed.

Lemma bind_assoc {A B C} (m : M St A) (f : A -> M St B) (g : B -> M St C) st :
  bind (bind m f) g st = bind m (fun a => bind (f a) g) st.
Proof.
  unfold bind. destruct (m st) as [[[a| |] s1] t1]; try reflexivity.
  destruct (f a s1) as [[[b| |] s2] t2]; try reflexivity.
  destruct (g b s2) as [[o s3] t3]. rewrite app_assoc. reflexivity.
Qed.

Lemma hoare_ret_bind {A B} w0 (a : A) (k : A -> M St B) Q :
  hoare w0 (k a) Q -> hoare w0 (bind (ret a) k) Q.
Proof. apply hoare_ext. intros st. apply bind_ret_l. Qed.

Lemma hoare_py_mod {B} w0 (a b : Z) (k : Z -> M St B) Q :
  (b <> 0 -> hoare w0 (k (a mod b)) Q) ->
  (b = 0 -> Q (Raised ZeroDivisionError) w0 []) ->
  hoare w0 (bind (py_mod a b) k) Q.
Proof.
  intros Hk Hr st Hst. unfold bind, py_mod.
  destruct (b =? 0) eqn:Hb; simpl.
  - rewrite Hst. apply Hr. apply Z.eqb_eq, Hb.
  - apply Z.eqb_neq in Hb. specialize (Hk Hb st Hst).
    destruct (k _ st) as [[o2 s2] t2]; simpl in *. exact Hk.
Qed.

(** *** Bystanders *)

Lemma eval_event_bystander (e : Event) : eval_event e -> bystander e.
Proof. destruct e as [| | [] | | ? [] | | [] |]; simpl; tauto. Qed.

Lemma bystander_calm (e : Event) : bystander e -> calm e.
Proof.
  destruct e as [| | [] | | | | [] |]; simpl; unfold calm; simpl; tauto.
Qed.

Lemma rollout_items_app (t1 t2 : list Event) :
  rollout_items (t1 ++ t2) = rollout_items t1 ++ rollout_items t2.
Proof. apply flat_map_app. Qed.

Lemma bystanders_items (t : list Event) :
  Forall bystander t -> rollout_items t = [].
Proof.
  induction 1 as [|e t He _ IH]; [reflexivity|].
  replace (e :: t) with ([e] ++ t) by reflexivity.
  rewrite rollout_items_app, IH, app_nil_r.
  destruct e as [| | [] | | | | [] |]; simpl in *; tauto.
Qed.

Lemma bystanders_calm (t : list Event) :
  Forall bystander t -> Forall calm t.
Proof. intros H. eapply Forall_impl; [exact H | exact bystander_calm]. Qed.

Lemma BeginQ_prepend w0 b (o : outcome Locals) w t1 t2 :
  Forall bystander t1 ->
  BeginQ w0 b o w t2 -> BeginQ w0 b o w (t1 ++ t2).
Proof.
  intros Hb (Hw & Hcalm & Ho). unfold BeginQ.
  rewrite rollout_items_app, (bystanders_items _ Hb). simpl.
  split; [exact Hw|].
  split; [apply Forall_app; split; [apply bystanders_calm, Hb | exact Hcalm]|].
  exact Ho.
Qed.

Ltac beginq_side :=
  unfold BeginQ; simpl;
  (split; [reflexivity|]);
  (split; [repeat constructor|]);
  auto.

Ltac bystanders_side :=
  simpl; (split; [reflexivity | repeat constructor]).

(** The [if done:] block resets the rollout environment once, at its
    end, and binds [obs]. *)
Lemma hoare_begin_episode fuel l w0 :
  hoare w0 (begin_episode fuel l) (BeginQ w0 true).
Proof.
  unfold begin_episode.
  apply hoare_self. apply hoare_self.
  eapply hoare_bind with
    (Q1 := fun o w t => w = w0 /\ Forall bystander t).
  { destruct (0 <? step w0).
    - apply hoare_call; [|intros e; bystanders_side].
      intros now. apply hoare_self. unfold logger_log.
      apply hoare_effect; [|intros e; bystanders_side].
      apply hoare_call; [|intros e; bystanders_side].
      intros start. apply hoare_self.
      apply hoare_effect; [|intros e; bystanders_side].
      apply hoare_ret. bystanders_side.
    - apply hoare_ret. bystanders_side. }
  { intros e w t [-> Hb]. unfold BeginQ.
    rewrite (bystanders_items _ Hb).
    split; [reflexivity|]. split; [apply bystanders_calm, Hb | auto]. }
  { intros w t [-> Hb]. unfold BeginQ.
    rewrite (bystanders_items _ Hb).
    split; [reflexivity|]. split; [apply bystanders_calm, Hb | auto]. }
  intros start_time w1 t1 [-> Hb1].
  eapply hoare_conseq;
    [|intros o w t2 H; apply BeginQ_prepend; [exact Hb1 | exact H]].
  apply hoare_self.
  apply hoare_py_mod; [|intros _; beginq_side].
  intros Hfreq.
  eapply hoare_bind with
    (Q1 := fun o w t => w = w0 /\ Forall bystander t).
  { destruct (_ =? 0).
    - apply hoare_self. unfold logger_log.
      apply hoare_effect; [|intros e; bystanders_side].
      eapply hoare_conseq; [apply hoare_evaluate|].
      intros o w t (Hw & Hall & _). split; [exact Hw|].
      constructor; [exact I|].
      eapply Forall_impl; [exact Hall | exact eval_event_bystander].
    - apply hoare_ret. bystanders_side. }
  { intros e w t [-> Hb]. unfold BeginQ.
    rewrite (bystanders_items _ Hb).
    split; [reflexivity|]. split; [apply bystanders_calm, Hb | auto]. }
  { intros w t [-> Hb]. unfold BeginQ.
    rewrite (bystanders_items _ Hb).
    split; [reflexivity|]. split; [apply bystanders_calm, Hb | auto]. }
  intros u w1 t2 [-> Hb2].
  eapply hoare_conseq;
    [|intros o w t3 H; apply BeginQ_prepend; [exact Hb2 | exact H]].
  apply hoare_self. unfold logger_log.
  apply hoare_effect; [|intros e; beginq_side].
  apply hoare_reset; [|intros e; beginq_side].
  intros obs. apply hoare_self.
  apply hoare_effect; [|intros e; beginq_side].
  apply hoare_ret. beginq_side.
Qed.

Lemma bind_ret_r {A} (m : M St A) st : bind m ret st = m st.
Proof.
  unfold bind, ret. destruct (m st) as [[[a| |] s1] t1]; try reflexivity.
  rewrite app_nil_r. reflexivity.
Qed.

Lemma truthy_float (d : bool) : truthy (float_of_bool d) = d.
Proof. destruct d; reflexivity. Qed.

Lemma bystander_select c s o a : bystander (select_event c s o a).
Proof. unfold select_event. destruct (s <? _); exact I. Qed.

Lemma bystander_updates s n : Forall bystander (repeat (EvUpdate s) n).
Proof. induction n as [|n IH]; simpl; constructor; [exact I | exact IH]. Qed.

Lemma hoare_update_loop iters w0 :
  hoare w0 (update_loop iters)
    (fun o w t =>
       w = w0 /\
       exists n, t = repeat (EvUpdate (step w0)) n /\
                 (returned o = true -> n = length iters)).
Proof.
  induction iters as [|i rest IH]; simpl.
  - apply hoare_ret. split; [reflexivity|]. exists O. auto.
  - apply hoare_update.
    + eapply hoare_conseq; [exact IH|].
      intros o w t (Hw & n & -> & Hn). split; [exact Hw|].
      exists (S n). split; [reflexivity|]. intros Ho. rewrite (Hn Ho).
      reflexivity.
    + intros e. split; [reflexivity|]. exists 1%nat.
      split; [reflexivity | discriminate].
Qed.

(** A pass that stops before its rollout step has only made calm calls. *)
Lemma IterQ_before_step w0 l (o : outcome Locals) t1 t :
  returned o = false ->
  Forall calm t1 ->
  rollout_items t1 = (if truthy (l_done l) then [ItReset] else []) ->
  Forall bystander t ->
  IterQ w0 l o w0 (t1 ++ t).
Proof.
  intros Ho Hcalm Hitems Hb.
  assert (Hbody : step w0 = step w0 /\
            ((Forall calm (t1 ++ t) /\
              (rollout_items (t1 ++ t) = [] \/
               (truthy (l_done l) = true /\
                rollout_items (t1 ++ t) = [ItReset]))) \/
             exists d, iteration_shape w0 (truthy (l_done l)) d (t1 ++ t))).
  { split; [reflexivity|]. left.
    split; [apply Forall_app; split; [exact Hcalm | apply bystanders_calm, Hb]|].
    rewrite rollout_items_app, (bystanders_items _ Hb), app_nil_r, Hitems.
    destruct (truthy (l_done l)); auto. }
  unfold IterQ, same_config.
  destruct o; [discriminate Ho| |]; auto.
Qed.

(** One pass through the loop body. *)
Lemma hoare_run_iteration fuel l w0 :
  truthy (l_done l) = true \/ is_Some (l_obs l) ->
  hoare w0 (run_iteration fuel l) (IterQ w0 l).
Proof.
  intros Hl. unfold run_iteration.
  eapply hoare_bind with (Q1 := BeginQ w0 (truthy (l_done l))).
  { destruct (truthy (l_done l)) eqn:Hd.
    - apply hoare_begin_episode.
    - apply hoare_ret. destruct Hl as [Hl|Hl]; [discriminate Hl|].
      beginq_side. }
  { intros e w t (-> & Hcalm & Hit). unfold IterQ, same_config.
    repeat split; auto. }
  { intros w t (-> & Hcalm & Hit). unfold IterQ, same_config.
    repeat split; auto. }
  intros l1 w1 t1 (-> & Hcalm & [o Ho] & Hitems).
  apply hoare_self. apply hoare_self.
  (* the action *)
  eapply hoare_bind with
    (Q1 := fun oc w t =>
             w = w0 /\
             match oc with
             | Returned a => t = [select_event (cfg w0) (step w0) o a]
             | _ => t = []
             end).
  { unfold select_event. destruct (step w0 <? num_seed_steps (cfg w0)).
    - eapply hoare_ext; [intros st; symmetry; apply bind_ret_r|].
      apply hoare_sample; [|intros e; auto].
      intros a. apply hoare_ret. auto.
    - unfold read_obs. rewrite Ho.
      apply hoare_ret_bind.
      eapply hoare_ext; [intros st; symmetry; apply bind_ret_r|].
      apply hoare_act; [|intros e; auto].
      intros a. apply hoare_ret. auto. }
  { intros e w t [-> ->].
    apply IterQ_before_step; auto. }
  { intros w t [-> ->].
    apply IterQ_before_step; auto. }
  intros a w1 ta [-> ->].
  apply hoare_self.
  (* the updates *)
  eapply hoare_bind with
    (Q1 := fun oc w t =>
             w = w0 /\
             exists n, t = repeat (EvUpdate (step w0)) n /\
                       (returned oc = true ->
                        t = updates_of (cfg w0) (step w0))).
  { unfold updates_of. destruct (num_seed_steps (cfg w0) <=? step w0).
    - eapply hoare_conseq; [apply hoare_update_loop|].
      intros oc w t (Hw & n & -> & Hn). split; [exact Hw|].
      exists n. split; [reflexivity|]. intros Hoc. rewrite (Hn Hoc).
      unfold range. rewrite length_seqZ. reflexivity.
    - apply hoare_ret. split; [reflexivity|]. exists O. auto. }
  { intros e w t (-> & n & -> & _).
    apply IterQ_before_step; auto.
    constructor; [apply bystander_select | apply bystander_updates]. }
  { intros w t (-> & n & -> & _).
    apply IterQ_before_step; auto.
    constructor; [apply bystander_select | apply bystander_updates]. }
  intros u w1 tu (-> & n & Hn & Hups).
  specialize (Hups eq_refl). subst tu.
  (* the step and the insertion *)
  apply hoare_step.
  2:{ intros e. apply IterQ_before_step; auto.
      constructor; [apply bystander_select|].
      rewrite app_nil_r. apply bystander_updates. }
  intros o' r d. simpl.
  apply hoare_self. unfold read_obs. rewrite Ho. apply hoare_ret_bind.
  assert (Hshape : forall dnm,
            iteration_shape w0 (truthy (l_done l)) d
              (t1 ++ [select_event (cfg w0) (step w0) o a] ++
               repeat (EvUpdate (step w0)) n ++
               [EvEnvStep Train (step w0) (l_episode_step l1) a o' r d;
                EvAdd o a r o' (float_of_bool d) dnm])).
  { intros dnm. exists t1, o, a, o', r, (l_episode_step l1), dnm.
    split; [exact Hcalm|]. split; [exact Hitems|].
    rewrite Hups. reflexivity. }
  apply hoare_add.
  2:{ intros e. unfold IterQ, same_config.
      split; [auto|]. split; [reflexivity|]. right. exists d. apply Hshape. }
  intros rb' Hadd. apply hoare_incr_step. apply hoare_ret.
  unfold IterQ, same_config. simpl.
  split; [auto|]. split; [reflexivity|]. split; [eauto|].
  rewrite truthy_float.
  destruct (Hshape (if l_episode_step l1 + 1 =? _max_episode_steps (env w0)
                    then 0 else float_of_bool d))
    as (tb & ob & ab & ob' & rb & es & dnm & H1 & H2 & H3).
  exists tb, ob, ab, ob', rb, es, dnm. simpl. auto.
Qed.

(** *** Counting and ordering the calls of a pass *)

Lemma calm_count_adds (t : list Event) : Forall calm t -> count_adds t = 0.
Proof.
  unfold count_adds. induction 1 as [|e t [_ He] _ IH]; [reflexivity|].
  rewrite count_cons, He, IH. reflexivity.
Qed.

Lemma shape_prefix_calm w0 tb o a :
  Forall calm tb ->
  Forall calm (tb ++ select_event (cfg w0) (step w0) o a
                  :: updates_of (cfg w0) (step w0)).
Proof.
  intros Hcalm. apply Forall_app. split; [exact Hcalm|].
  apply bystanders_calm. constructor; [apply bystander_select|].
  apply bystander_updates.
Qed.

Lemma shape_assoc (tb : list Event) sel ups e1 e2 :
  tb ++ sel :: ups ++ [e1; e2] = (tb ++ sel :: ups) ++ e1 :: [e2].
Proof. rewrite <- app_assoc. reflexivity. Qed.

Lemma shape_count_adds w0 b d t :
  iteration_shape w0 b d t -> count_adds t = 1.
Proof.
  intros (tb & o & a & o' & r & es & dnm & Hcalm & _ & ->).
  rewrite shape_assoc. unfold count_adds.
  rewrite count_app, !count_cons, count_nil.
  pose proof (calm_count_adds _ (shape_prefix_calm w0 tb o a Hcalm)) as H0.
  unfold count_adds in H0. rewrite H0. reflexivity.
Qed.

Lemma shape_items w0 b d t :
  iteration_shape w0 b d t ->
  rollout_items t = (if b then [ItReset] else []) ++ [ItStep d].
Proof.
  intros (tb & o & a & o' & r & es & dnm & _ & Hitems & ->).
  replace (tb ++ select_event (cfg w0) (step w0) o a
              :: updates_of (cfg w0) (step w0)
              ++ [EvEnvStep Train (step w0) es a o' r d;
                  EvAdd o a r o' (float_of_bool d) dnm])
    with (tb ++ (select_event (cfg w0) (step w0) o a
                   :: updates_of (cfg w0) (step w0))
             ++ [EvEnvStep Train (step w0) es a o' r d;
                 EvAdd o a r o' (float_of_bool d) dnm])
    by reflexivity.
  rewrite !rollout_items_app, Hitems.
  rewrite (bystanders_items (select_event _ _ _ _ :: updates_of _ _)).
  - reflexivity.
  - constructor; [apply bystander_select | apply bystander_updates].
Qed.

(** A rollout step among calls that are none is found where it is. *)
Lemma unique_rollout_step (l1 : list Event) e l2 : forall pre e' post,
  Forall (fun x => is_rollout_step x = false) l1 ->
  Forall (fun x => is_rollout_step x = false) l2 ->
  is_rollout_step e' = true ->
  l1 ++ e :: l2 = pre ++ e' :: post ->
  pre = l1 /\ e' = e /\ post = l2.
Proof.
  induction l1 as [|x l1 IH]; intros pre e' post H1 H2 He' Heq; simpl in Heq.
  - destruct pre as [|y pre]; simpl in Heq; injection Heq as -> Heq.
    + auto.
    + exfalso. subst l2. apply Forall_app in H2 as [_ H2].
      inversion H2 as [|? ? Hc _]; subst. congruence.
  - inversion H1 as [|? ? Hx H1']; subst.
    destruct pre as [|y pre]; simpl in Heq; injection Heq as -> Heq.
    + congruence.
    + destruct (IH _ _ _ H1' H2 He' Heq) as (-> & -> & ->). auto.
Qed.

Lemma step_window_nil c : step_window c [].
Proof. intros [|? ?] ? ? ? ? ? ? ? H; discriminate H. Qed.

Lemma step_window_calm c (t : list Event) : Forall calm t -> step_window c t.
Proof.
  intros Hcalm pre s es a o' r d post ->.
  apply Forall_app in Hcalm as [_ Hcalm].
  inversion Hcalm as [|? ? [Hc _] _]; subst. discriminate Hc.
Qed.

Lemma step_window_shape w0 b d t :
  iteration_shape w0 b d t -> step_window (cfg w0) t.
Proof.
  intros (tb & o & a & o' & r & es & dnm & Hcalm & _ & ->).
  intros pre s es1 a1 o1 r1 d1 post Heq.
  rewrite shape_assoc in Heq.
  apply unique_rollout_step in Heq as (-> & Hev & ->);
    [| eapply Forall_impl;
         [apply (shape_prefix_calm w0 tb o a Hcalm) | intros x [Hx _]; exact Hx]
     | repeat constructor
     | reflexivity].
  injection Hev as -> -> -> -> -> ->.
  exists tb, o, (float_of_bool d), dnm, []. auto.
Qed.

Lemma step_window_app c (t1 t2 : list Event) :
  step_window c t1 -> step_window c t2 -> step_window c (t1 ++ t2).
Proof.
  intros H1 H2 pre s es a o' r d post Heq.
  apply app_eq_app in Heq as [k [[Ht1 Hrest] | [Hpre Ht2]]].
  - destruct k as [|x k]; simpl in Hrest.
    + rewrite app_nil_r in Ht1. subst pre.
      destruct (H2 [] _ _ _ _ _ _ _ (eq_sym Hrest))
        as (pre0 & o & dn & dnm & post' & -> & Hp).
      destruct pre0; discriminate Hp.
    + injection Hrest as <- ->.
      destruct (H1 _ _ _ _ _ _ _ _ Ht1)
        as (pre0 & o & dn & dnm & post' & -> & ->).
      exists pre0, o, dn, dnm, (post' ++ t2). auto.
  - destruct (H2 _ _ _ _ _ _ _ _ Ht2)
      as (pre0 & o & dn & dnm & post' & -> & ->).
    exists (t1 ++ pre0), o, dn, dnm, post'.
    rewrite Hpre, <- app_assoc. auto.
Qed.

Lemma items_ok_after_pass b d (rest : list Item) :
  items_ok d rest ->
  items_ok b (((if b then [ItReset] else []) ++ [ItStep d]) ++ rest).
Proof. destruct b; simpl; auto. Qed.

(** The [while] loop. *)
Lemma hoare_run_loop fuel : forall l w0,
  truthy (l_done l) = true \/ is_Some (l_obs l) ->
  hoare w0 (run_loop fuel l) (LoopQ w0 (truthy (l_done l))).
Proof.
  assert (Hstop : forall b w0 (o : outcome unit),
            (returned o = true -> num_train_steps (cfg w0) <= step w0) ->
            LoopQ w0 b o w0 []).
  { intros b w0 o Hge. unfold LoopQ, same_config, count_adds.
    rewrite count_nil. simpl.
    split; [auto|]. split; [apply step_window_nil|]. split; [exact I|].
    split; [lia|]. split; [lia|]. split; [lia|].
    intros Ho. specialize (Hge Ho). lia. }
  induction fuel as [|fuel IH]; intros l w0 Hl; simpl;
    apply hoare_self; apply hoare_self;
    destruct (step w0 <? num_train_steps (cfg w0)) eqn:Hlt;
    try (apply hoare_ret; apply Hstop; intros _; apply Z.ltb_ge, Hlt).
  - apply hoare_out_of_fuel. apply Hstop. discriminate.
  - apply Z.ltb_lt in Hlt.
    assert (Habort : forall (o : outcome Locals) (o' : outcome unit) w t,
              returned o = false -> returned o' = false ->
              IterQ w0 l o w t -> LoopQ w0 (truthy (l_done l)) o' w t).
    { intros o o' w t Ho Ho' [Hcfg Hbody].
      assert (Hb : step w = step w0 /\
                ((Forall calm t /\
                  (rollout_items t = [] \/
                   (truthy (l_done l) = true /\ rollout_items t = [ItReset])))
                 \/ exists d, iteration_shape w0 (truthy (l_done l)) d t))
        by (destruct o; [discriminate Ho | exact Hbody | exact Hbody]).
      destruct Hb as [Hs Hb]. unfold LoopQ.
      split; [exact Hcfg|].
      destruct Hb as [[Hcalm Hit] | [d Hsh]].
      - rewrite (calm_count_adds _ Hcalm).
        split; [apply step_window_calm, Hcalm|].
        split; [destruct Hit as [-> | [-> ->]]; simpl; auto|].
        split; [lia|]. split; [lia|]. split; [lia|].
        intros Hr. rewrite Ho' in Hr. discriminate Hr.
      - rewrite (shape_count_adds _ _ _ _ Hsh).
        split; [eapply step_window_shape, Hsh|].
        split; [rewrite (shape_items _ _ _ _ Hsh);
                destruct (truthy (l_done l)); simpl; auto|].
        split; [lia|]. split; [lia|]. split; [lia|].
        intros Hr. rewrite Ho' in Hr. discriminate Hr. }
    eapply hoare_bind; [apply hoare_run_iteration, Hl | | |].
    + intros e w t HQ. eapply Habort; [| | exact HQ]; reflexivity.
    + intros w t HQ. eapply Habort; [| | exact HQ]; reflexivity.
    + intros l' w1 t1 (Hcfg & Hs1 & Hobs & Hsh).
      eapply hoare_conseq; [apply IH; right; exact Hobs|].
      intros o w t2 (Hcfg2 & Hwin & Hit & Hbound & Hcnt & Hmax & Hret).
      destruct Hcfg as (Hc1 & Hc2 & Hc3 & Hc4).
      destruct Hcfg2 as (Hd1 & Hd2 & Hd3 & Hd4).
      rewrite Hc2 in *.
      unfold LoopQ, same_config, count_adds in *. rewrite count_app.
      pose proof (shape_count_adds _ _ _ _ Hsh) as Hone.
      unfold count_adds in Hone. rewrite Hone.
      split; [repeat split; congruence|].
      split; [apply step_window_app;
              [eapply step_window_shape, Hsh | exact Hwin]|].
      split; [rewrite rollout_items_app, (shape_items _ _ _ _ Hsh);
              apply items_ok_after_pass, Hit|].
      split; [lia|]. split; [lia|]. split; [lia|].
      intros Ho. destruct (Hret Ho). lia.
Qed.

Lemma hoare_run fuel w0 : hoare w0 (run fuel) (LoopQ w0 true).
Proof.
  unfold run. apply hoare_call.
  - intros start_time.
    apply (hoare_run_loop fuel
             {| l_episode := 0; l_episode_reward := reward_zero;
                l_episode_step := 1; l_done := 1; l_obs := None;
                l_start_time := start_time |} w0).
    left. reflexivity.
  - intros e. unfold LoopQ, same_config, count_adds.
    rewrite count_nil. simpl.
    split; [auto|]. split; [apply step_window_nil|]. split; [exact I|].
    split; [lia|]. split; [lia|]. split; [lia|].
    intros Hr. discriminate Hr.
Qed.
(** The step counter and the budget.  In every execution of [run],
    finished or not, the attributes set by [__init__] are untouched,
    [self.step] never decreases and never passes the larger of its
    initial value and [num_train_steps], it counts the insertions made
    (one more insertion may have been called if the run stopped inside
    [add]), and the insertions never exceed the budget
    [max(0, num_train_steps - initial step)]. *)
Theorem run_step_budget fuel (st : St) :
  let w0 := ws st in
  let w := ws (run fuel st).1.2 in
  let t := (run fuel st).2 in
  same_config w0 w /\
  step w0 <= step w <= Z.max (step w0) (num_train_steps (cfg w0)) /\
  step w - step w0 <= count_adds t <= step w - step w0 + 1 /\
  count_adds t <= Z.max 0 (num_train_steps (cfg w0) - step w0).
Proof.
  destruct (hoare_run fuel (ws st) st eq_refl)
    as (Hcfg & _ & _ & Hb & Hc & Hm & _).
  simpl. auto.
Qed.

(** When [run] returns, [self.step] is the larger of its initial value
    and [num_train_steps], and exactly
    [max(0, num_train_steps - initial step)] transitions were inserted. *)
Theorem run_returns_accounting fuel (st : St) :
  (run fuel st).1.1 = Returned tt ->
  step (ws (run fuel st).1.2)
    = Z.max (step (ws st)) (num_train_steps (cfg (ws st))) /\
  count_adds (run fuel st).2
    = Z.max 0 (num_train_steps (cfg (ws st)) - step (ws st)).
Proof.
  intros Ho.
  destruct (hoare_run fuel (ws st) st eq_refl)
    as (_ & _ & _ & Hb & Hc & Hm & Hret).
  rewrite Ho in Hret. destruct (Hret eq_refl) as [Hge Hcnt]. lia.
Qed.

(** The schedule of a rollout step.  In the trace of [run], the step
    taken at [self.step = s] comes right after the [num_train_iters]
    updates of that step (none during the warm-up, [s < num_seed_steps]),
    which come right after the choice of its action:
    [action_space.sample()] during the warm-up, afterwards
    [agent.act(obs, sample=True)] on the observation that is then
    inserted as the transition's observation. *)
Theorem rollout_step_schedule fuel (st : St) pre s es a o' r d post :
  (run fuel st).2 = pre ++ EvEnvStep Train s es a o' r d :: post ->
  exists pre0 o dn dnm post',
    post = EvAdd o a r o' dn dnm :: post' /\
    pre = pre0 ++ select_event (cfg (ws st)) s o a
               :: updates_of (cfg (ws st)) s.
Proof.
  intros Htr.
  destruct (hoare_run fuel (ws st) st eq_refl) as (_ & Hwin & _).
  exact (Hwin _ _ _ _ _ _ _ _ Htr).
Qed.

(** The reset discipline.  In every execution of [run] the rollout loop
    resets the environment before its first step and after each step on
    which the environment reported [done], and at no other point; no
    step is taken while a reset is due. *)
Theorem reset_discipline fuel (st : St) :
  items_ok true (rollout_items (run fuel st).2).
Proof.
  destruct (hoare_run fuel (ws st) st eq_refl) as (_ & _ & Hit & _).
  exact Hit.
Qed.

(** With the budget already used up at entry
    ([num_train_steps <= self.step]), [run] does nothing: no call is
    recorded and the workspace is as it was. *)
Theorem run_no_budget fuel (st : St) :
  num_train_steps (cfg (ws st)) <= step (ws st) ->
  (run fuel st).2 = [] /\ ws (run fuel st).1.2 = ws st /\
  returned (run fuel st).1.1 = returned (call time_time (world st)).1.1.
Proof.
  intros Hge. apply Z.ltb_ge in Hge.
  unfold run, bind, in_world, call.
  destruct (time_time (world st)) as [[t0|e] w1]; simpl; [|auto].
  destruct fuel; simpl; unfold bind, self, gets; simpl; rewrite Hge;
    simpl; auto.
Qed.

Lemma evaluate_raises_on_zero fuel (st : St) :
  num_eval_episodes (cfg (ws st)) = 0 ->
  evaluate fuel st = (Raised ZeroDivisionError, st, []).
Proof.
  intros Hn. unfold evaluate, bind, self, gets, py_div, range; simpl.
  rewrite Hn. reflexivity.
Qed.

(** With [eval_frequency = 0], a run that starts at [self.step = 0] with
    a positive budget raises [ZeroDivisionError] in its first pass,
    before any call of the environment, the agent or the logger. *)
Theorem run_zero_eval_frequency fuel (st : St) t0 w1 :
  step (ws st) = 0 ->
  0 < num_train_steps (cfg (ws st)) ->
  eval_frequency (cfg (ws st)) = 0 ->
  time_time (world st) = (Ok t0, w1) ->
  run (S fuel) st
    = (Raised ZeroDivisionError, {| ws := ws st; world := w1 |}, []).
Proof.
  intros Hs Hb Hf Ht. apply Z.ltb_lt in Hb.
  unfold run, bind, in_world, call. rewrite Ht. simpl.
  unfold bind, self, gets; simpl. rewrite Hs, Hb. simpl.
  unfold run_iteration, begin_episode, bind, self, gets, py_mod; simpl.
  rewrite Hs, Hf. reflexivity.
Qed.

(** *** Running the code on known results of the collaborators *)

Lemma bind_self_eq {A B} (f : Workspace -> A) (k : A -> M St B) st :
  bind (self f) k st = k (f (ws st)) st.
Proof.
  unfold bind, self, gets. destruct (k (f (ws st)) st) as [[o s] t].
  reflexivity.
Qed.

Lemma bind_call_ok {A B} (f : World -> result A * World) (k : A -> M St B)
    st a w' :
  f (world st) = (Ok a, w') ->
  bind (in_world (call f)) k st = k a {| ws := ws st; world := w' |}.
Proof.
  intros Hf. unfold bind, in_world, call. rewrite Hf.
  destruct (k a _) as [[o s] t]. reflexivity.
Qed.

Lemma bind_effect_ok {B} (c : Call) (k : unit -> M St B) st w' :
  ext_effect c (world st) = (Ok tt, w') ->
  bind (in_world (effect c)) k st
    = let r := k tt {| ws := ws st; world := w' |} in
      (r.1.1, r.1.2, EvCall c :: r.2).
Proof.
  intros Hf. unfold bind, in_world, effect, bind, emit, call. rewrite Hf.
  simpl. destruct (k tt _) as [[o s] t]. reflexivity.
Qed.

Lemma bind_py_mod_ok {B} (a b : Z) (k : Z -> M St B) st :
  b <> 0 -> bind (py_mod a b) k st = k (a mod b) st.
Proof.
  intros Hb. apply Z.eqb_neq in Hb. unfold py_mod. rewrite Hb.
  apply bind_ret_l.
Qed.

Lemma bind_raised {A B} (m : M St A) (k : A -> M St B) st e s1 t1 :
  m st = (Raised e, s1, t1) -> bind m k st = (Raised e, s1, t1).
Proof. intros Hm. unfold bind. rewrite Hm. reflexivity. Qed.

(** The first [if done:] block of a fresh run, when no evaluation
    episode is configured. *)
Lemma begin_episode_zero_episodes fuel l (st : St) w2 :
  step (ws st) = 0 ->
  eval_frequency (cfg (ws st)) <> 0 ->
  num_eval_episodes (cfg (ws st)) = 0 ->
  ext_effect (LoggerLog "eval/episode" (VInt (l_episode l)) 0) (world st)
    = (Ok tt, w2) ->
  begin_episode fuel l st
    = (Raised ZeroDivisionError, {| ws := ws st; world := w2 |},
       [EvCall (LoggerLog "eval/episode" (VInt (l_episode l)) 0)]).
Proof.
  intros Hs Hf Hn He. unfold begin_episode.
  rewrite !bind_self_eq, Hs. simpl.
  rewrite bind_ret_l, bind_self_eq, Hs.
  rewrite (bind_py_mod_ok _ _ _ _ Hf), Zmod_0_l. simpl.
  rewrite bind_assoc, bind_self_eq, Hs, bind_assoc.
  unfold logger_log. rewrite (bind_effect_ok _ _ _ _ He).
  erewrite bind_raised;
    [|apply (evaluate_raises_on_zero fuel {| ws := ws st; world := w2 |} Hn)].
  reflexivity.
Qed.

(** With [num_eval_episodes = 0], a run that starts at [self.step = 0]
    with a positive budget raises [ZeroDivisionError] in its first pass:
    the evaluation that opens the first episode divides by zero, so no
    rollout step is ever taken. *)
Theorem run_zero_eval_episodes fuel (st : St) t0 w1 w2 :
  step (ws st) = 0 ->
  0 < num_train_steps (cfg (ws st)) ->
  eval_frequency (cfg (ws st)) <> 0 ->
  num_eval_episodes (cfg (ws st)) = 0 ->
  time_time (world st) = (Ok t0, w1) ->
  ext_effect (LoggerLog "eval/episode" (VInt 0) 0) w1 = (Ok tt, w2) ->
  run (S fuel) st
    = (Raised ZeroDivisionError, {| ws := ws st; world := w2 |},
       [EvCall (LoggerLog "eval/episode" (VInt 0) 0)]).
Proof.
  intros Hs Hb Hf Hn Ht He. apply Z.ltb_lt in Hb.
  unfold run. rewrite (bind_call_ok _ _ _ _ _ Ht).
  simpl run_loop. rewrite !bind_self_eq.
  change (ws {| ws := ws st; world := w1 |}) with (ws st). rewrite Hs, Hb.
  erewrite bind_raised; [reflexivity|].
  unfold run_iteration. simpl truthy. cbv iota.
  erewrite bind_raised; [reflexivity|].
  exact (begin_episode_zero_episodes fuel
           {| l_episode := 0; l_episode_reward := reward_zero;
              l_episode_step := 1; l_done := 1; l_obs := None;
              l_start_time := t0 |}
           {| ws := ws st; world := w1 |} w2 Hs Hf Hn He).
Qed.
End RunMore.

(* ================================================================== *)
(** * More about [make_env] and [__init__] *)

Section InitMore.
Context {T : DataTypes} {X : Externals}.

Ltac init_call :=
  match goal with
  | |- context [match ?x with _ => _ end] =>
      match type of x with
      | (result _ * _)%type => destruct x as [[?|?] ?] eqn:?
      | result _ => destruct x as [?|?] eqn:?
      | bool => destruct x eqn:?
      end; simpl
  end.

(** The action range checked by [make_env].  The agent is only ever
    instantiated under the configured name and with an action range
    inside [[-1, 1]], since [make_env] asserts the bounds of the action
    space first; and when [__init__] returns, the environment of the
    workspace has its action bounds inside [[-1, 1]] and the agent was
    instantiated with that environment's observation shape, action shape
    and action range. *)
Theorem init_action_range (c : Cfg) (w : World) :
  (forall name params,
     In (EvCall (HydraInstantiate name params)) (Workspace_init c w).2 ->
     name = agent_name c /\
     Qle (-1 # 1) (params_action_range params).1 /\
     Qle (params_action_range params).2 (1 # 1)) /\
  (forall wsn,
     (Workspace_init c w).1.1 = Returned wsn ->
     Qle (-1 # 1) (action_space_low_min (env wsn)) /\
     Qle (action_space_high_max (env wsn)) (1 # 1) /\
     In (EvCall (HydraInstantiate (agent_name c)
           {| params_obs_shape := observation_space_shape (env wsn);
              params_action_shape := action_space_shape (env wsn);
              params_action_range :=
                (action_space_low_min (env wsn),
                 action_space_high_max (env wsn)) |}))
        (Workspace_init c w).2).
Proof.
  unfold Workspace_init, make_env, effect, bind, call, emit, ret, raise,
    of_result, py_assert; simpl.
  repeat init_call;
    repeat match goal with
           | H : Qle_bool _ _ = true |- _ => apply Qle_bool_iff in H
           end;
    (split;
     [ intros name params Hin;
       repeat (destruct Hin as [Hin|Hin]; [try discriminate Hin|]);
       try contradiction;
       injection Hin as <- <-; simpl; auto
     | intros wsn Hret;
       first [ discriminate Hret
             | injection Hret as <-; simpl;
               split; [assumption|]; split; [assumption|]; auto 10 ] ]).
Qed.
End InitMore.

Section EnvNames.

Lemma py_split_spec (s : string) :
  exists piece pieces,
    py_split "_" s = piece :: pieces /\
    py_join "_" (piece :: pieces) = s /\
    has_char "_" piece = false /\
    (pieces = [] <-> has_char "_" s = false).
Proof.
  induction s as [|ch rest (piece & pieces & Hsplit & Hjoin & Hpiece & Hnil)];
    simpl.
  - exists EmptyString, []. repeat split; auto.
  - destruct (Ascii.eqb ch "_") eqn:Hch.
    + apply Ascii.eqb_eq in Hch. subst ch.
      exists EmptyString, (piece :: pieces). rewrite Hsplit.
      split; [reflexivity|]. split.
      * unfold py_join in *. simpl in *. rewrite Hjoin. reflexivity.
      * split; [reflexivity|]. split; discriminate.
    + exists (String ch piece), pieces. rewrite Hsplit.
      split; [reflexivity|]. split.
      * unfold py_join in *. simpl in *.
        destruct pieces; simpl in *; rewrite Hjoin; reflexivity.
      * simpl. rewrite Hch. simpl. auto.
Qed.

(** The name locals of [make_env].  For every environment name the
    split never fails, and [domain_name + '_' + task_name] gives the name
    back when it contains an underscore; a name without underscore is
    its own domain with an empty task.  Outside the two special-cased
    names the domain is the part before the first underscore, so it
    contains none.  The camera is 2 for the quadruped domain and 0
    otherwise. *)
Theorem make_env_names_roundtrip (env_name : string) :
  exists domain_name task_name camera_id,
    make_env_names env_name = Some (domain_name, task_name, camera_id) /\
    (if has_char "_" env_name
     then (domain_name ++ "_" ++ task_name)%string = env_name
     else domain_name = env_name /\ task_name = EmptyString) /\
    (env_name <> "ball_in_cup_catch"%string ->
     env_name <> "point_mass_easy"%string ->
     has_char "_" domain_name = false) /\
    camera_id = (if String.eqb domain_name "quadruped" then 2 else 0).
Proof.
  unfold make_env_names.
  destruct (String.eqb env_name "ball_in_cup_catch") eqn:H1.
  { apply String.eqb_eq in H1. subst env_name.
    do 3 eexists. split; [reflexivity|]. simpl.
    split; [reflexivity|]. split; [congruence | reflexivity]. }
  destruct (String.eqb env_name "point_mass_easy") eqn:H2.
  { apply String.eqb_eq in H2. subst env_name.
    do 3 eexists. split; [reflexivity|]. simpl.
    split; [reflexivity|]. split; [congruence | reflexivity]. }
  destruct (py_split_spec env_name)
    as (piece & pieces & Hsplit & Hjoin & Hpiece & Hnil).
  rewrite Hsplit. do 3 eexists. split; [reflexivity|].
  split; [|split; [auto | reflexivity]].
  destruct (has_char "_" env_name) eqn:Hhas.
  - destruct pieces as [|p ps].
    + destruct Hnil as [Hnil _]. specialize (Hnil eq_refl). discriminate.
    + unfold py_join in *. simpl in Hjoin. exact Hjoin.
  - destruct Hnil as [_ Hnil]. rewrite (Hnil eq_refl) in *.
    unfold py_join in *. simpl in *. auto.
Qed.
End EnvNames.

(* ================================================================== *)
(** * The further properties in the toy world *)

Lemma evaluate_episode_accounting_witness :
  (evaluate (X := toy_X) 50 (toy_st 4 2 2)).1.1 = Returned tt /\
  count is_eval_reset (evaluate (X := toy_X) 50 (toy_st 4 2 2)).2 = 1.
Proof.
  assert (H : (evaluate (X := toy_X) 50 (toy_st 4 2 2)).1.1 = Returned tt)
    by (vm_compute; reflexivity).
  split; [exact H|].
  destruct (evaluate_episode_accounting (X := toy_X) 50 (toy_st 4 2 2))
    as (_ & _ & _ & Hret).
  destruct (Hret H) as (_ & Hresets & _). exact Hresets.
Defined.

Lemma evaluate_logs_average_witness :
  (evaluate (X := toy_X) 50 (toy_st 4 2 2)).1.1 = Returned tt /\
  exists pre,
    (evaluate (X := toy_X) 50 (toy_st 4 2 2)).2
      = pre ++ [EvCall (LoggerLog "eval/episode_reward"
                  (VReward (reward_div (Externals := toy_X)
                     (eval_rewards (X := toy_X) pre
                        (reward_zero (Externals := toy_X),
                         reward_zero (Externals := toy_X))).1 1)) 0);
                EvCall (LoggerDump 0 None)].
Proof.
  assert (H : (evaluate (X := toy_X) 50 (toy_st 4 2 2)).1.1 = Returned tt)
    by (vm_compute; reflexivity).
  split; [exact H|].
  exact (evaluate_logs_average (X := toy_X) 50 (toy_st 4 2 2) H).
Defined.

Lemma evaluate_zero_episodes_witness :
  num_eval_episodes (cfg (ws (toy_st_eval 0 5))) = 0 /\
  evaluate (X := toy_X) 50 (toy_st_eval 0 5)
    = (Raised ZeroDivisionError, toy_st_eval 0 5, []).
Proof.
  split; [reflexivity|].
  exact (evaluate_zero_episodes (X := toy_X) 50 (toy_st_eval 0 5) eq_refl).
Defined.

Lemma run_returns_accounting_witness :
  (run (X := toy_X) 50 (toy_st 4 2 2)).1.1 = Returned tt /\
  step (ws (run (X := toy_X) 50 (toy_st 4 2 2)).1.2) = 4 /\
  count_adds (run (X := toy_X) 50 (toy_st 4 2 2)).2 = 4.
Proof.
  assert (H : (run (X := toy_X) 50 (toy_st 4 2 2)).1.1 = Returned tt)
    by (vm_compute; reflexivity).
  split; [exact H|].
  exact (run_returns_accounting (X := toy_X) 50 (toy_st 4 2 2) H).
Defined.

Lemma rollout_step_schedule_witness :
  (run (X := toy_X) 50 (toy_st 4 2 2)).2
    = firstn 28 toy_run_trace
        ++ EvEnvStep Train 2 0 9 10 1 false :: skipn 29 toy_run_trace /\
  exists pre0 o dn dnm post',
    skipn 29 toy_run_trace = EvAdd o 9 1 10 dn dnm :: post' /\
    firstn 28 toy_run_trace
      = pre0 ++ select_event (toy_cfg 4 2) 2 o 9
             :: updates_of (toy_cfg 4 2) 2.
Proof.
  assert (H : (run (X := toy_X) 50 (toy_st 4 2 2)).2
              = firstn 28 toy_run_trace
                  ++ EvEnvStep Train 2 0 9 10 1 false
                       :: skipn 29 toy_run_trace)
    by (vm_compute; reflexivity).
  split; [exact H|].
  exact (rollout_step_schedule (X := toy_X) 50 (toy_st 4 2 2) _ _ _ _ _ _ _ _ H).
Defined.

Lemma run_no_budget_witness :
  num_train_steps (cfg (ws (toy_st 0 2 2))) <= step (ws (toy_st 0 2 2)) /\
  (run (X := toy_X) 50 (toy_st 0 2 2)).2 = [] /\
  ws (run (X := toy_X) 50 (toy_st 0 2 2)).1.2 = ws (toy_st 0 2 2).
Proof.
  assert (H : num_train_steps (cfg (ws (toy_st 0 2 2)))
              <= step (ws (toy_st 0 2 2))) by (simpl; lia).
  split; [exact H|].
  destruct (run_no_budget (X := toy_X) 50 (toy_st 0 2 2) H) as (Ht & Hw & _).
  split; [exact Ht | exact Hw].
Defined.

Lemma run_zero_eval_frequency_witness :
  (step (ws (toy_st_eval 1 0)) = 0 /\
   0 < num_train_steps (cfg (ws (toy_st_eval 1 0))) /\
   eval_frequency (cfg (ws (toy_st_eval 1 0))) = 0 /\
   time_time (Externals := toy_X) (world (toy_st_eval 1 0)) = (Ok 0, 1)) /\
  run (X := toy_X) 50 (toy_st_eval 1 0)
    = (Raised ZeroDivisionError,
       {| ws := ws (toy_st_eval 1 0); world := 1 |}, []).
Proof.
  split; [repeat split; simpl; lia|].
  apply (run_zero_eval_frequency (X := toy_X) 49 (toy_st_eval 1 0) 0 1);
    [reflexivity | simpl; lia | reflexivity | reflexivity].
Defined.

Lemma run_zero_eval_episodes_witness :
  (step (ws (toy_st_eval 0 5)) = 0 /\
   0 < num_train_steps (cfg (ws (toy_st_eval 0 5))) /\
   eval_frequency (cfg (ws (toy_st_eval 0 5))) <> 0 /\
   num_eval_episodes (cfg (ws (toy_st_eval 0 5))) = 0 /\
   time_time (Externals := toy_X) (world (toy_st_eval 0 5)) = (Ok 0, 1) /\
   ext_effect (Externals := toy_X) (LoggerLog "eval/episode" (VInt 0) 0) 1
     = (Ok tt, 1)) /\
  run (X := toy_X) 50 (toy_st_eval 0 5)
    = (Raised ZeroDivisionError,
       {| ws := ws (toy_st_eval 0 5); world := 1 |},
       [EvCall (LoggerLog "eval/episode" (VInt 0) 0)]).
Proof.
  split; [repeat split; simpl; lia|].
  apply (run_zero_eval_episodes (X := toy_X) 49 (toy_st_eval 0 5) 0 1 1);
    [reflexivity | simpl; lia | simpl; lia | reflexivity | reflexivity
    | reflexivity].
Defined.

Lemma init_action_range_witness :
  (Workspace_init (X := toy_X) (toy_cfg 4 2) 0).1.1 = Returned toy_workspace /\
  Qle (-1 # 1) (action_space_low_min (env toy_workspace)) /\
  Qle (action_space_high_max (env toy_workspace)) (1 # 1).
Proof.
  assert (H : (Workspace_init (X := toy_X) (toy_cfg 4 2) 0).1.1
              = Returned toy_workspace) by (vm_compute; reflexivity).
  split; [exact H|].
  destruct (init_action_range (X := toy_X) (toy_cfg 4 2) 0) as (_ & Hret).
  destruct (Hret toy_workspace H) as (Hlow & Hhigh & _).
  split; [exact Hlow | exact Hhigh].
Defined.

Lemma make_env_names_roundtrip_witness :
  exists domain_name task_name camera_id,
    make_env_names "quadruped_walk" = Some (domain_name, task_name, camera_id) /\
    (domain_name ++ "_" ++ task_name)%string = "quadruped_walk"%string /\
    camera_id = (if String.eqb domain_name "quadruped" then 2 else 0).
Proof.
  destruct (make_env_names_roundtrip "quadruped_walk")
    as (d & t & cam & Hnames & Hjoin & _ & Hcam).
  exists d, t, cam. split; [exact Hnames|]. split; [exact Hjoin | exact Hcam].
Defined.
